(** * Polling / dispatch engine of the base worker (internal/internal_worker_base.go)

    The worker is a set of goroutines (pollers, one dispatcher, one
    processor per task) communicating over two channels and a stop
    channel.  We embed it as an interleaving semantics: one global state
    and an executable [step] function, one event per atomic action of one
    goroutine (or of the caller of [Start]/[Stop]).  A Go [select] with
    several ready cases is modelled by enabling every corresponding event.
    Durations are in milliseconds. *)

From Stdlib Require Import Arith Lia List Bool.
From Stdlib Require Strings.String Strings.Ascii.
Import ListNotations.
#[local] Set Warnings "-abstract-large-number".

(** * Poll retry policy (createPollRetryPolicy) and the concurrent retrier *)

Module Backoff.

(** [retryPollOperationInitialInterval] and [retryPollOperationMaxInterval],
    in milliseconds. *)
Definition retryPollOperationInitialInterval : nat := 20.
Definition retryPollOperationMaxInterval : nat := 10000.

(** An exponential retry policy; [None] is [backoff.NoInterval]. *)
Record RetryPolicy := {
  initialInterval : nat;
  backoffCoefficient : nat;
  maximumInterval : option nat;
  expirationInterval : option nat
}.

Definition NoInterval : option nat := None.

Section Policy.

(** The library's default coefficient and expiration interval; the code
    under verification overrides the expiration and the spec does not fix
    either. *)
Variable defaultBackoffCoefficient : nat.
Variable defaultExpirationInterval : option nat.

(** Modelled from the spec: [backoff.NewExponentialRetryPolicy] (package
    internal/common/backoff) is not part of the sources; it builds an
    exponential policy from its initial interval, with no maximum. *)
Definition NewExponentialRetryPolicy (initial : nat) : RetryPolicy :=
  {| initialInterval := initial; backoffCoefficient := defaultBackoffCoefficient;
     maximumInterval := NoInterval; expirationInterval := defaultExpirationInterval |}.

Definition SetMaximumInterval (p : RetryPolicy) (m : nat) : RetryPolicy :=
  {| initialInterval := initialInterval p; backoffCoefficient := backoffCoefficient p;
     maximumInterval := Some m; expirationInterval := expirationInterval p |}.

Definition SetExpirationInterval (p : RetryPolicy) (e : option nat) : RetryPolicy :=
  {| initialInterval := initialInterval p; backoffCoefficient := backoffCoefficient p;
     maximumInterval := maximumInterval p; expirationInterval := e |}.

(** [createPollRetryPolicy]: initial 20ms, maximum 10s, never expires. *)
Definition createPollRetryPolicy : RetryPolicy :=
  SetExpirationInterval
    (SetMaximumInterval (NewExponentialRetryPolicy retryPollOperationInitialInterval)
       retryPollOperationMaxInterval)
    NoInterval.

End Policy.

(** A computed delay, or the terminal "expired" answer. *)
Inductive NextDelay := After (d : nat) | Done.

Definition capInterval (p : RetryPolicy) (x : nat) : nat :=
  match maximumInterval p with Some m => Nat.min x m | None => x end.

(** Modelled from the spec: [ComputeNextDelay] of the exponential policy
    (not part of the sources): the delay grows exponentially with the
    number of consecutive failures, capped at the maximum interval; the
    answer is [Done] only once an expiration interval is set and elapsed. *)
Definition ComputeNextDelay (p : RetryPolicy) (elapsed numAttempts : nat) : NextDelay :=
  let base := initialInterval p * backoffCoefficient p ^ numAttempts in
  match expirationInterval p with
  | Some e => if e <? elapsed then Done else After (capInterval p (Nat.min base (e - elapsed)))
  | None => After (capInterval p base)
  end.

(** Modelled from the spec: [backoff.ConcurrentRetrier] (not part of the
    sources): a consecutive-failure counter over a policy; [Failed]
    increments it, [Succeeded] resets it, [Throttle] sleeps for the
    policy's delay for the failures so far, and not at all without one. *)
Record ConcurrentRetrier := { retryPolicy : RetryPolicy; failureCount : nat }.

Definition NewConcurrentRetrier (p : RetryPolicy) : ConcurrentRetrier :=
  {| retryPolicy := p; failureCount := 0 |}.

Definition Failed (r : ConcurrentRetrier) : ConcurrentRetrier :=
  {| retryPolicy := retryPolicy r; failureCount := S (failureCount r) |}.

Definition Succeeded (r : ConcurrentRetrier) : ConcurrentRetrier :=
  {| retryPolicy := retryPolicy r; failureCount := 0 |}.

(** The sleep of [Throttle] at elapsed time [elapsed]. *)
Definition ThrottleDelay (r : ConcurrentRetrier) (elapsed : nat) : nat :=
  match failureCount r with
  | 0 => 0
  | S k => match ComputeNextDelay (retryPolicy r) elapsed k with
           | After d => d
           | Done => 0
           end
  end.

End Backoff.

(** * Metrics wrapper of the workflow service client (metrics package)

    Every RPC method of [workflowServiceMetricsWrapperGRPC] takes the
    operation scope of its name ([getOperationScope]), calls the wrapped
    service, reports the error ([handleError]) and returns the service's
    result and error.  Metrics are modelled by what is reported to the
    root tally scope; durations are not modelled. *)

Module MetricsWrapper.
Import Stdlib.Strings.String.
Local Open Scope string_scope.

(** [yarpcerrors.Code] *)
Inductive Code :=
| CodeOK | CodeCancelled | CodeUnknown | CodeInvalidArgument | CodeDeadlineExceeded
| CodeNotFound | CodeAlreadyExists | CodePermissionDenied | CodeResourceExhausted
| CodeFailedPrecondition | CodeAborted | CodeOutOfRange | CodeUnimplemented
| CodeInternal | CodeUnavailable | CodeDataLoss | CodeUnauthenticated.

(** A non-nil [error] returned by the wrapped service: a yarpc status, or
    any other error value. *)
Inductive GoError := YarpcStatus (c : Code) | OtherError.

(** [yarpcerrors.FromError(err).Code()]: an error that is not a yarpc
    status is wrapped as a status with [CodeUnknown]. *)
Definition fromErrorCode (e : GoError) : Code :=
  match e with YarpcStatus c => c | OtherError => CodeUnknown end.

(** Counters reported by the wrapper. *)
Inductive CounterName := CadenceRequest | CadenceInvalidRequest | CadenceError.

Definition CounterName_eqb (a b : CounterName) : bool :=
  match a, b with
  | CadenceRequest, CadenceRequest
  | CadenceInvalidRequest, CadenceInvalidRequest
  | CadenceError, CadenceError => true
  | _, _ => false
  end.

(** A sub-scope of the wrapper's root scope, identified by the name given
    to [SubScope]. *)
Definition Scope := string.

(** The wrapper's [childScopes] map (as an association list) with what it
    reported to its root scope: the [SubScope] calls in order, the value
    of each counter of each sub-scope, and the number of [CadenceLatency]
    timer records of each sub-scope. *)
Record workflowServiceMetricsWrapperGRPC := {
  childScopes : list (string * Scope);
  subScopeCalls : list string;
  counters : Scope -> CounterName -> nat;
  latencyRecords : Scope -> nat
}.

Definition NewWorkflowServiceWrapperGRPC : workflowServiceMetricsWrapperGRPC :=
  {| childScopes := []; subScopeCalls := [];
     counters := fun _ _ => 0; latencyRecords := fun _ => 0 |}.

(** [w.childScopes[scopeName]] *)
Fixpoint lookupScope (scopeName : string) (m : list (string * Scope)) : option Scope :=
  match m with
  | [] => None
  | (k, s) :: t => if String.eqb k scopeName then Some s else lookupScope scopeName t
  end.

(** [w.scope.SubScope(scopeName)] *)
Definition SubScope (w : workflowServiceMetricsWrapperGRPC) (scopeName : string)
  : Scope * workflowServiceMetricsWrapperGRPC :=
  (scopeName,
   {| childScopes := childScopes w; subScopeCalls := app (subScopeCalls w) [scopeName];
      counters := counters w; latencyRecords := latencyRecords w |}).

(** [getScope], under the wrapper's mutex: the cached scope if there is
    one, otherwise a new sub-scope, stored in [childScopes]. *)
Definition getScope (w : workflowServiceMetricsWrapperGRPC) (scopeName : string)
  : Scope * workflowServiceMetricsWrapperGRPC :=
  match lookupScope scopeName (childScopes w) with
  | Some scope => (scope, w)
  | None =>
      let '(scope, w1) := SubScope w scopeName in
      (scope,
       {| childScopes := (scopeName, scope) :: childScopes w1;
          subScopeCalls := subScopeCalls w1;
          counters := counters w1; latencyRecords := latencyRecords w1 |})
  end.

(** [scope.Counter(c).Inc(1)] *)
Definition incCounter (w : workflowServiceMetricsWrapperGRPC) (scope : Scope) (c : CounterName)
  : workflowServiceMetricsWrapperGRPC :=
  {| childScopes := childScopes w; subScopeCalls := subScopeCalls w;
     counters := fun s c' =>
       if String.eqb s scope && CounterName_eqb c' c then S (counters w s c') else counters w s c';
     latencyRecords := latencyRecords w |}.

(** [scope.Timer(CadenceLatency).Record(...)] *)
Definition recordLatency (w : workflowServiceMetricsWrapperGRPC) (scope : Scope)
  : workflowServiceMetricsWrapperGRPC :=
  {| childScopes := childScopes w; subScopeCalls := subScopeCalls w;
     counters := counters w;
     latencyRecords := fun s => if String.eqb s scope then S (latencyRecords w s)
                                else latencyRecords w s |}.

Definition getOperationScope (w : workflowServiceMetricsWrapperGRPC) (scopeName : string)
  : Scope * workflowServiceMetricsWrapperGRPC :=
  let '(scope, w1) := getScope w scopeName in
  (scope, incCounter w1 scope CadenceRequest).

Definition handleError (w : workflowServiceMetricsWrapperGRPC) (scope : Scope)
  (err : option GoError) : workflowServiceMetricsWrapperGRPC :=
  let w1 := recordLatency w scope in
  match err with
  | None => w1
  | Some e =>
      match fromErrorCode e with
      | CodeNotFound | CodeInvalidArgument | CodeAlreadyExists =>
          incCounter w1 scope CadenceInvalidRequest
      | _ => incCounter w1 scope CadenceError
      end
  end.

(** The body shared by every RPC method of the wrapper (DeprecateDomain,
    ListDomains, ..., ReapplyEvents), for the scope name of the method;
    [result] and [err] are what the wrapped service returned. *)
Definition callOperation {R : Type} (scopeName : string) (result : R) (err : option GoError)
  (w : workflowServiceMetricsWrapperGRPC) : (R * option GoError) * workflowServiceMetricsWrapperGRPC :=
  let '(scope, w1) := getOperationScope w scopeName in
  ((result, err), handleError w1 scope err).

(** A sequence of RPC calls, each given by its scope name and the error
    the service returned. *)
Fixpoint runCalls (calls : list (string * option GoError))
  (w : workflowServiceMetricsWrapperGRPC) : workflowServiceMetricsWrapperGRPC :=
  match calls with
  | [] => w
  | (scopeName, err) :: rest => runCalls rest (snd (callOperation scopeName tt err w))
  end.

(** The codes [handleError] reports as [CadenceInvalidRequest]. *)
Definition isInvalidRequestCode (c : Code) : bool :=
  match c with CodeNotFound | CodeInvalidArgument | CodeAlreadyExists => true | _ => false end.

Definition callsTo (scopeName : string) (calls : list (string * option GoError))
  : list (string * option GoError) :=
  filter (fun c => String.eqb (fst c) scopeName) calls.

Definition invalidRequestCalls (calls : list (string * option GoError))
  : list (string * option GoError) :=
  filter (fun c => match snd c with
                   | Some e => isInvalidRequestCode (fromErrorCode e)
                   | None => false end) calls.

Definition otherErrorCalls (calls : list (string * option GoError))
  : list (string * option GoError) :=
  filter (fun c => match snd c with
                   | Some e => negb (isInvalidRequestCode (fromErrorCode e))
                   | None => false end) calls.

(** Consistency of the scope cache: [SubScope] was called at most once
    per name, exactly for the cached names, and the scope cached for a
    name is the sub-scope of that name. *)
Definition ScopeCacheOk (w : workflowServiceMetricsWrapperGRPC) : Prop :=
  NoDup (subScopeCalls w) /\
  (forall n, In n (subScopeCalls w) <-> lookupScope n (childScopes w) <> None) /\
  (forall n s, lookupScope n (childScopes w) = Some s -> s = n).

Definition sampleCalls : list (string * option GoError) :=
  [("ListDomains", None); ("DescribeDomain", Some (YarpcStatus CodeNotFound));
   ("ListDomains", Some OtherError); ("ListDomains", Some (YarpcStatus CodeAlreadyExists))].

End MetricsWrapper.

(** * The gob data converter of the tests (testDataConverter)

    Gob itself is a library outside this repository: it enters as an
    encoder and a decoder of the [Gob] class, the decoder taking the value
    the target pointer holds (its type drives the decoding).  The metadata
    keys and the gob encoding name are constants defined outside this
    repository: they enter through [MetadataKeys].  Errors are modelled by
    the sentinel they wrap and the index they report; a Go runtime panic
    ([valuePtrs[i]] out of range) is a result of its own. *)

Module TestDataConverter.
Import Stdlib.Strings.String.
Local Open Scope string_scope.

Definition bytes := list Byte.byte.

Class Gob (V : Type) := {
  gobEncode : V -> option bytes;       (* enc.Encode(arg); None: error *)
  gobDecode : V -> bytes -> option V   (* dec.Decode(valuePtr); None: error *)
}.

Class MetadataKeys := {
  encodingMetadata : string;
  nameMetadata : string;
  encodingMetadataGob : string
}.

(** [commonpb.PayloadItem]; a payload is its list of items. *)
Record PayloadItem := { Metadata : list (string * string); Data : bytes }.
Definition Payload := list PayloadItem.

(** Lookup in a [map[string][]byte]. *)
Fixpoint lookupMeta (k : string) (m : list (string * string)) : option string :=
  match m with
  | [] => None
  | (k', v) :: t => if String.eqb k' k then Some v else lookupMeta k t
  end.

(** [fmt]'s [%d] of a non-negative integer. *)
Fixpoint decimalAux (fuel n : nat) (acc : string) : string :=
  match fuel with
  | 0 => acc
  | S f =>
      let acc' := String (Ascii.ascii_of_nat (48 + n mod 10)) acc in
      if Nat.ltb n 10 then acc' else decimalAux f (n / 10) acc'
  end.
Definition formatInt (n : nat) : string := decimalAux (S n) n "".

(** [fmt.Sprintf("args[%d]", i)] *)
Definition argName (i : nat) : string := "args[" ++ formatInt i ++ "]".
#[global] Arguments argName : simpl never.

(** [*valuePtrs[i] = v] *)
Fixpoint setNth {A : Type} (l : list A) (i : nat) (x : A) : list A :=
  match l, i with
  | [], _ => []
  | _ :: t, 0 => x :: t
  | h :: t, S i' => h :: setNth t i' x
  end.

(** The error of [ToData]: [values[i]] wrapping [ErrUnableToEncodeGob]. *)
Inductive ToDataError := ErrUnableToEncodeGob (i : nat).

(** The errors of [FromData], by the sentinel they wrap. *)
Inductive FromDataError :=
| ErrEncodingIsNotSet (i : nat)
| ErrUnableToDecodeGob (i : nat)
| ErrEncodingIsNotSupported (i : nat) (encoding : string).

Inductive FromDataResult :=
| FromDataOk
| FromDataErr (e : FromDataError)
| IndexOutOfRange (i : nat).   (* runtime panic on valuePtrs[i] *)

Section Converter.
Context {V : Type} `{Gob V} `{MetadataKeys}.

(** The loop of [ToData] from index [i]. *)
Fixpoint toDataItems (i : nat) (values : list V) : ToDataError + Payload :=
  match values with
  | [] => inr []
  | arg :: rest =>
      match gobEncode arg with
      | None => inl (ErrUnableToEncodeGob i)
      | Some buf =>
          let payloadItem :=
            {| Metadata := [(encodingMetadata, encodingMetadataGob); (nameMetadata, argName i)];
               Data := buf |} in
          match toDataItems (S i) rest with
          | inl e => inl e
          | inr items => inr (payloadItem :: items)
          end
      end
  end.

Definition ToData (values : list V) : ToDataError + Payload := toDataItems 0 values.

(** The loop of [FromData] from index [i]; the first component is what
    the value pointers hold afterwards. *)
Fixpoint fromDataItems (i : nat) (items : Payload) (valuePtrs : list V)
  : list V * FromDataResult :=
  match items with
  | [] => (valuePtrs, FromDataOk)
  | payloadItem :: rest =>
      match lookupMeta encodingMetadata (Metadata payloadItem) with
      | None => (valuePtrs, FromDataErr (ErrEncodingIsNotSet i))
      | Some e =>
          if String.eqb e encodingMetadataGob then
            match nth_error valuePtrs i with
            | None => (valuePtrs, IndexOutOfRange i)
            | Some target =>
                match gobDecode target (Data payloadItem) with
                | None => (valuePtrs, FromDataErr (ErrUnableToDecodeGob i))
                | Some v => fromDataItems (S i) rest (setNth valuePtrs i v)
                end
            end
          else (valuePtrs, FromDataErr (ErrEncodingIsNotSupported i e))
      end
  end.

Definition FromData (payload : Payload) (valuePtrs : list V) : list V * FromDataResult :=
  fromDataItems 0 payload valuePtrs.


(** Gob decodes into [target] what it encoded from [v]. *)
Definition decodesBack (v target : V) : Prop :=
  forall b, gobEncode v = Some b -> gobDecode target b = Some v.

End Converter.

(** A sample codec for small naturals, and sample metadata keys. *)
#[export] Instance natGob : Gob nat := {
  gobEncode n := if Nat.ltb n 100 then Some (repeat Byte.x01 n) else None;
  gobDecode _ b := Some (List.length b)
}.

#[export] Instance sampleKeys : MetadataKeys := {
  encodingMetadata := "encoding";
  nameMetadata := "name";
  encodingMetadataGob := "gob"
}.

End TestDataConverter.

Module BaseWorker.

(** ** Generic list helpers *)

(** Assignment [l[i] = x] to a goroutine slot; out of range is unchanged
    (the model never writes out of range: every event first reads the slot
    with [nth_error]). *)
Fixpoint upd {A : Type} (l : list A) (i : nat) (x : A) : list A :=
  match l, i with
  | [], _ => []
  | _ :: t, 0 => x :: t
  | h :: t, S i' => h :: upd t i' x
  end.

Fixpoint sumw {A : Type} (f : A -> nat) (l : list A) : nat :=
  match l with
  | [] => 0
  | h :: t => f h + sumw f t
  end.

(** ** Data model *)

(** [baseWorkerOptions], restricted to the fields the engine reads. *)
Record baseWorkerOptions := {
  pollerCount : nat;
  pollerRate : nat;          (* 0: no [pollLimiter] *)
  maxConcurrentTask : nat    (* capacity of [pollerRequestCh] *)
}.

(** Program point of one [runPoller] goroutine. *)
Inductive PollerPc :=
| PSelect      (* top of the loop: select on stopCh / pollerRequestCh *)
| PHasPermit   (* received a permit, about to run [pollTask] *)
| PSend        (* [pollTask]: select { taskQueueCh <- task ; <-stopCh } *)
| PRearm       (* [pollTask]: pollerRequestCh <- struct{}{} *)
| PDone.       (* returned *)

(** Program point of the [runTaskDispatcher] goroutine. *)
Inductive DispPc :=
| DIdle                        (* not launched yet *)
| DPreload (i : nat)           (* pre-load loop, [i] permits sent *)
| DLoop                        (* select on stopCh / taskQueueCh *)
| DLimit (isPolledTask : bool) (* received a task, before the limiter *)
| DDone.

(** Program point of one [processTask] goroutine. *)
Inductive ProcPc :=
| ProcRun (isPolledTask : bool)  (* before [ProcessTask] returns *)
| ProcReturn                     (* deferred pollerRequestCh <- struct{}{} *)
| ProcDone.

(** Program point of the goroutine calling [Start] / [Stop]. *)
Inductive MainPc :=
| MIdle     (* not inside [Stop] *)
| MCancel   (* [Stop]: stopCh closed, before limiterContextCancel() *)
| MAwait.   (* [Stop]: inside awaitWaitGroup *)

(** [isServiceTransientError] classification of a poll error. *)
Inductive PollErr := Transient | NonTransient.

(** What [taskWorker.PollTask()] returned: task != nil, and the error. *)
Record PollResult := { hasTask : bool; pollErr : option PollErr }.

(** How [taskWorker.ProcessTask(task)] ended. *)
Inductive ProcessOutcome :=
| ProcOk
| ProcErr (clientSide : bool)
| ProcPanic.

Record Worker := {
  options : baseWorkerOptions;
  isWorkerStarted : bool;
  stopCh : bool;            (* closed? *)
  limiterCtx : bool;        (* cancelled? *)
  mainPc : MainPc;
  pollerRequestCh : nat;    (* permits buffered in the channel *)
  pollers : list PollerPc;
  dispatcher : DispPc;
  procs : list ProcPc;
  stopWG : nat;
  failureCount : nat;       (* retrier: consecutive failures *)
  panicCounter : nat;       (* metrics.WorkerPanicCounter *)
  crashed : bool;           (* a Go panic escaped to the runtime *)
  (* ghost counters *)
  issued : nat;             (* permits sent by the pre-load loop *)
  dropped : nat;            (* permit-carrying tasks discarded *)
  pollsAfterStop : nat;     (* PollTask() calls begun with stopCh closed *)
  limiterWaits : nat        (* taskLimiter.Wait calls *)
}.

Definition mkW o st sc lc mp rq pl d pr wg fc pc cr is dr pa lw : Worker :=
  {| options := o; isWorkerStarted := st; stopCh := sc; limiterCtx := lc;
     mainPc := mp; pollerRequestCh := rq; pollers := pl; dispatcher := d;
     procs := pr; stopWG := wg; failureCount := fc; panicCounter := pc;
     crashed := cr; issued := is; dropped := dr; pollsAfterStop := pa;
     limiterWaits := lw |}.

(** Field updates [w.f = x]. *)
Definition set_started (w : Worker) x :=
  mkW (options w) x (stopCh w) (limiterCtx w) (mainPc w) (pollerRequestCh w) (pollers w) (dispatcher w) (procs w) (stopWG w) (failureCount w) (panicCounter w) (crashed w) (issued w) (dropped w) (pollsAfterStop w) (limiterWaits w).
Definition set_stopCh (w : Worker) x :=
  mkW (options w) (isWorkerStarted w) x (limiterCtx w) (mainPc w) (pollerRequestCh w) (pollers w) (dispatcher w) (procs w) (stopWG w) (failureCount w) (panicCounter w) (crashed w) (issued w) (dropped w) (pollsAfterStop w) (limiterWaits w).
Definition set_limiterCtx (w : Worker) x :=
  mkW (options w) (isWorkerStarted w) (stopCh w) x (mainPc w) (pollerRequestCh w) (pollers w) (dispatcher w) (procs w) (stopWG w) (failureCount w) (panicCounter w) (crashed w) (issued w) (dropped w) (pollsAfterStop w) (limiterWaits w).
Definition set_mainPc (w : Worker) x :=
  mkW (options w) (isWorkerStarted w) (stopCh w) (limiterCtx w) x (pollerRequestCh w) (pollers w) (dispatcher w) (procs w) (stopWG w) (failureCount w) (panicCounter w) (crashed w) (issued w) (dropped w) (pollsAfterStop w) (limiterWaits w).
Definition set_requestCh (w : Worker) x :=
  mkW (options w) (isWorkerStarted w) (stopCh w) (limiterCtx w) (mainPc w) x (pollers w) (dispatcher w) (procs w) (stopWG w) (failureCount w) (panicCounter w) (crashed w) (issued w) (dropped w) (pollsAfterStop w) (limiterWaits w).
Definition set_pollers (w : Worker) x :=
  mkW (options w) (isWorkerStarted w) (stopCh w) (limiterCtx w) (mainPc w) (pollerRequestCh w) x (dispatcher w) (procs w) (stopWG w) (failureCount w) (panicCounter w) (crashed w) (issued w) (dropped w) (pollsAfterStop w) (limiterWaits w).
Definition set_dispatcher (w : Worker) x :=
  mkW (options w) (isWorkerStarted w) (stopCh w) (limiterCtx w) (mainPc w) (pollerRequestCh w) (pollers w) x (procs w) (stopWG w) (failureCount w) (panicCounter w) (crashed w) (issued w) (dropped w) (pollsAfterStop w) (limiterWaits w).
Definition set_procs (w : Worker) x :=
  mkW (options w) (isWorkerStarted w) (stopCh w) (limiterCtx w) (mainPc w) (pollerRequestCh w) (pollers w) (dispatcher w) x (stopWG w) (failureCount w) (panicCounter w) (crashed w) (issued w) (dropped w) (pollsAfterStop w) (limiterWaits w).
Definition set_stopWG (w : Worker) x :=
  mkW (options w) (isWorkerStarted w) (stopCh w) (limiterCtx w) (mainPc w) (pollerRequestCh w) (pollers w) (dispatcher w) (procs w) x (failureCount w) (panicCounter w) (crashed w) (issued w) (dropped w) (pollsAfterStop w) (limiterWaits w).
Definition set_failureCount (w : Worker) x :=
  mkW (options w) (isWorkerStarted w) (stopCh w) (limiterCtx w) (mainPc w) (pollerRequestCh w) (pollers w) (dispatcher w) (procs w) (stopWG w) x (panicCounter w) (crashed w) (issued w) (dropped w) (pollsAfterStop w) (limiterWaits w).
Definition set_panicCounter (w : Worker) x :=
  mkW (options w) (isWorkerStarted w) (stopCh w) (limiterCtx w) (mainPc w) (pollerRequestCh w) (pollers w) (dispatcher w) (procs w) (stopWG w) (failureCount w) x (crashed w) (issued w) (dropped w) (pollsAfterStop w) (limiterWaits w).
Definition set_crashed (w : Worker) x :=
  mkW (options w) (isWorkerStarted w) (stopCh w) (limiterCtx w) (mainPc w) (pollerRequestCh w) (pollers w) (dispatcher w) (procs w) (stopWG w) (failureCount w) (panicCounter w) x (issued w) (dropped w) (pollsAfterStop w) (limiterWaits w).
Definition set_issued (w : Worker) x :=
  mkW (options w) (isWorkerStarted w) (stopCh w) (limiterCtx w) (mainPc w) (pollerRequestCh w) (pollers w) (dispatcher w) (procs w) (stopWG w) (failureCount w) (panicCounter w) (crashed w) x (dropped w) (pollsAfterStop w) (limiterWaits w).
Definition set_dropped (w : Worker) x :=
  mkW (options w) (isWorkerStarted w) (stopCh w) (limiterCtx w) (mainPc w) (pollerRequestCh w) (pollers w) (dispatcher w) (procs w) (stopWG w) (failureCount w) (panicCounter w) (crashed w) (issued w) x (pollsAfterStop w) (limiterWaits w).
Definition set_pollsAfterStop (w : Worker) x :=
  mkW (options w) (isWorkerStarted w) (stopCh w) (limiterCtx w) (mainPc w) (pollerRequestCh w) (pollers w) (dispatcher w) (procs w) (stopWG w) (failureCount w) (panicCounter w) (crashed w) (issued w) (dropped w) x (limiterWaits w).
Definition set_limiterWaits (w : Worker) x :=
  mkW (options w) (isWorkerStarted w) (stopCh w) (limiterCtx w) (mainPc w) (pollerRequestCh w) (pollers w) (dispatcher w) (procs w) (stopWG w) (failureCount w) (panicCounter w) (crashed w) (issued w) (dropped w) (pollsAfterStop w) x.

(** [newBaseWorker]: both channels empty, stop channel open. *)
Definition newBaseWorker (o : baseWorkerOptions) : Worker :=
  mkW o false false false MIdle 0 [] DIdle [] 0 0 0 false 0 0 0 0.

Definition capacity (w : Worker) : nat := maxConcurrentTask (options w).

(** [bw.pollLimiter != nil] *)
Definition hasPollLimiter (w : Worker) : bool := 0 <? pollerRate (options w).

(** ** Lifecycle: [Start] and the first statement of [Stop] *)

(** [Start]: no-op when started; otherwise launches [pollerCount] pollers
    and the dispatcher, each registered with [stopWG]. *)
Definition Start (w : Worker) : Worker :=
  if isWorkerStarted w then w
  else
    let n := pollerCount (options w) in
    set_started (set_dispatcher
      (set_pollers (set_stopWG w (stopWG w + n + 1)) (pollers w ++ repeat PSelect n))
      (DPreload 0)) true.

(** [Stop] up to [close(bw.stopCh)]: a no-op before [Start]; closing an
    already closed channel is a Go panic. *)
Definition StopBegin (w : Worker) : Worker :=
  if negb (isWorkerStarted w) then w
  else if stopCh w then set_crashed w true
  else set_mainPc (set_stopCh w true) MCancel.

(** ** Retrier updates made by [pollTask] *)

Definition retrierFailed (w : Worker) : Worker :=
  set_failureCount w (S (failureCount w)).
Definition retrierSucceeded (w : Worker) : Worker :=
  set_failureCount w 0.

(** The [if err != nil && isServiceTransientError(err)] branch. *)
Definition recordPollError (r : PollResult) (w : Worker) : Worker :=
  match pollErr r with
  | Some Transient => retrierFailed w
  | _ => retrierSucceeded w
  end.

(** [go bw.processTask(task)] with [stopWG.Add(1)]. *)
Definition spawn (b : bool) (w : Worker) : Worker :=
  set_dispatcher (set_procs (set_stopWG w (S (stopWG w))) (procs w ++ [ProcRun b]))
    DLoop.

(** ** Events: one atomic action of one goroutine *)

Inductive Event :=
(* caller of Start / Stop *)
| EvStart
| EvStop                              (* close(bw.stopCh) *)
| EvCancel                            (* bw.limiterContextCancel() *)
| EvStopReturn (timedOut : bool)      (* awaitWaitGroup returns *)
(* runPoller / pollTask, poller [i] *)
| EvPollerExit (i : nat)              (* case <-bw.stopCh: return *)
| EvPollerTake (i : nat)              (* case <-bw.pollerRequestCh *)
| EvPollTask (i : nat) (r : PollResult) (* Throttle, pollLimiter, PollTask *)
| EvPollerSend (i : nat)              (* case bw.taskQueueCh <- &polledTask{task} *)
| EvPollerDrop (i : nat)              (* case <-bw.stopCh (task dropped) *)
| EvPollerRearm (i : nat)             (* bw.pollerRequestCh <- struct{}{} *)
(* runTaskDispatcher *)
| EvPreload                           (* one iteration of the pre-load loop *)
| EvDispExit                          (* case <-bw.stopCh: return *)
| EvInject                            (* a local (non-polled) task received *)
| EvDispatch                          (* taskLimiter, then go processTask *)
(* processTask, processor [j] *)
| EvProcess (j : nat) (o : ProcessOutcome)
| EvProcReturn (j : nat).             (* deferred permit return *)

(** [rate.Limiter.Wait(bw.limiterContext)] on a limiter of burst 1 and a
    context without deadline fails exactly when the context is cancelled. *)
Definition limiterWaitFails (w : Worker) : bool := limiterCtx w.

Definition step (ev : Event) (w : Worker) : option Worker :=
  if crashed w then None else
  match ev with
  | EvStart =>
      match mainPc w with MIdle => Some (Start w) | _ => None end
  | EvStop =>
      match mainPc w with MIdle => Some (StopBegin w) | _ => None end
  | EvCancel =>
      match mainPc w with
      | MCancel => Some (set_mainPc (set_limiterCtx w true) MAwait)
      | _ => None
      end
  | EvStopReturn timedOut =>
      match mainPc w with
      | MAwait =>
          if (stopWG w =? 0) || timedOut then Some (set_mainPc w MIdle) else None
      | _ => None
      end
  | EvPollerExit i =>
      match nth_error (pollers w) i with
      | Some PSelect =>
          if stopCh w
          then Some (set_stopWG (set_pollers w (upd (pollers w) i PDone)) (stopWG w - 1))
          else None
      | _ => None
      end
  | EvPollerTake i =>
      match nth_error (pollers w) i with
      | Some PSelect =>
          if 0 <? pollerRequestCh w
          then Some (set_requestCh (set_pollers w (upd (pollers w) i PHasPermit))
                       (pollerRequestCh w - 1))
          else None
      | _ => None
      end
  | EvPollTask i r =>
      match nth_error (pollers w) i with
      | Some PHasPermit =>
          if hasPollLimiter w && limiterWaitFails w
          then (* PollTask skipped, task == nil *)
            Some (set_pollers w (upd (pollers w) i PRearm))
          else
            let w1 := if stopCh w then set_pollsAfterStop w (S (pollsAfterStop w)) else w in
            let w2 := recordPollError r w1 in
            Some (set_pollers w2 (upd (pollers w) i (if hasTask r then PSend else PRearm)))
      | _ => None
      end
  | EvPollerSend i =>
      match nth_error (pollers w) i, dispatcher w with
      | Some PSend, DLoop =>
          Some (set_dispatcher (set_pollers w (upd (pollers w) i PSelect)) (DLimit true))
      | _, _ => None
      end
  | EvPollerDrop i =>
      match nth_error (pollers w) i with
      | Some PSend =>
          if stopCh w
          then Some (set_dropped (set_pollers w (upd (pollers w) i PSelect)) (S (dropped w)))
          else None
      | _ => None
      end
  | EvPollerRearm i =>
      match nth_error (pollers w) i with
      | Some PRearm =>
          if pollerRequestCh w <? capacity w
          then Some (set_requestCh (set_pollers w (upd (pollers w) i PSelect))
                       (S (pollerRequestCh w)))
          else None
      | _ => None
      end
  | EvPreload =>
      match dispatcher w with
      | DPreload k =>
          if k <? capacity w then
            if pollerRequestCh w <? capacity w
            then Some (set_issued (set_requestCh (set_dispatcher w (DPreload (S k)))
                                     (S (pollerRequestCh w))) (S (issued w)))
            else None
          else Some (set_dispatcher w DLoop)
      | _ => None
      end
  | EvDispExit =>
      match dispatcher w with
      | DLoop =>
          if stopCh w
          then Some (set_stopWG (set_dispatcher w DDone) (stopWG w - 1))
          else None
      | _ => None
      end
  | EvInject =>
      match dispatcher w with
      | DLoop => Some (set_dispatcher w (DLimit false))
      | _ => None
      end
  | EvDispatch =>
      match dispatcher w with
      | DLimit true =>
          let w1 := set_limiterWaits w (S (limiterWaits w)) in
          if limiterWaitFails w && stopCh w
          then Some (set_stopWG (set_dropped (set_dispatcher w1 DDone) (S (dropped w)))
                       (stopWG w - 1))
          else Some (spawn true w1)
      | DLimit false => Some (spawn false w)
      | _ => None
      end
  | EvProcess j o =>
      match nth_error (procs w) j with
      | Some (ProcRun b) =>
          let w1 := match o with
                    | ProcPanic => set_panicCounter w (S (panicCounter w))
                    | _ => w
                    end in
          if b then Some (set_procs w1 (upd (procs w) j ProcReturn))
          else Some (set_stopWG (set_procs w1 (upd (procs w) j ProcDone)) (stopWG w - 1))
      | _ => None
      end
  | EvProcReturn j =>
      match nth_error (procs w) j with
      | Some ProcReturn =>
          if pollerRequestCh w <? capacity w
          then Some (set_stopWG (set_requestCh (set_procs w (upd (procs w) j ProcDone))
                                  (S (pollerRequestCh w))) (stopWG w - 1))
          else None
      | _ => None
      end
  end.

(** Running a schedule: a list of events applied in order. *)
Fixpoint run (evs : list Event) (w : Worker) : option Worker :=
  match evs with
  | [] => Some w
  | ev :: rest => match step ev w with Some w' => run rest w' | None => None end
  end.

Definition Reachable (w : Worker) : Prop :=
  exists o evs, run evs (newBaseWorker o) = Some w.

(** ** Derived quantities *)

(** Permits held outside [pollerRequestCh]: by a poller between receiving
    a permit and handing over its task or re-arming, by the dispatcher
    while it holds a polled task, and by a processor of a polled task. *)
Definition pollerHolds (p : PollerPc) : nat :=
  match p with PHasPermit | PSend | PRearm => 1 | _ => 0 end.
Definition dispHolds (d : DispPc) : nat :=
  match d with DLimit true => 1 | _ => 0 end.
Definition procHolds (p : ProcPc) : nat :=
  match p with ProcRun true | ProcReturn => 1 | _ => 0 end.

Definition outside (w : Worker) : nat :=
  sumw pollerHolds (pollers w) + dispHolds (dispatcher w) + sumw procHolds (procs w).

(** Goroutines registered with [stopWG] that have not returned. *)
Definition pollerLive (p : PollerPc) : nat := match p with PDone => 0 | _ => 1 end.
Definition dispLive (d : DispPc) : nat :=
  match d with DIdle | DDone => 0 | _ => 1 end.
Definition procLive (p : ProcPc) : nat := match p with ProcDone => 0 | _ => 1 end.

Definition live (w : Worker) : nat :=
  sumw pollerLive (pollers w) + dispLive (dispatcher w) + sumw procLive (procs w).

(** Tasks that left [PollTask] but are not yet handed to a processor:
    pollers blocked on the hand-off, and the dispatcher's task while it
    waits on the task limiter. *)
Definition pollerInTransit (p : PollerPc) : nat := match p with PSend => 1 | _ => 0 end.
Definition inTransit (w : Worker) : nat :=
  sumw pollerInTransit (pollers w) + dispHolds (dispatcher w).


(** ** Concrete configurations and schedules used by the examples *)

(** Whether the pre-load loop of the dispatcher has finished. *)
Definition preloadDone (w : Worker) : bool :=
  match dispatcher w with DLoop | DLimit _ | DDone => true | _ => false end.

(** One poller, no poll limiter, one permit. *)
Definition opts_1_0_1 : baseWorkerOptions :=
  {| pollerCount := 1; pollerRate := 0; maxConcurrentTask := 1 |}.
(** One poller, no poll limiter, two permits. *)
Definition opts_1_0_2 : baseWorkerOptions :=
  {| pollerCount := 1; pollerRate := 0; maxConcurrentTask := 2 |}.

Definition gotTask : PollResult := {| hasTask := true; pollErr := None |}.
Definition transientFailure : PollResult :=
  {| hasTask := false; pollErr := Some Transient |}.

(** Start, and let the dispatcher pre-load [n] permits and enter its loop. *)
Definition startAndPreload (n : nat) : list Event :=
  EvStart :: repeat EvPreload (S n).

(** A polled task handed to a processor. *)
Definition dispatchedSchedule : list Event :=
  startAndPreload 1 ++ [EvPollerTake 0; EvPollTask 0 gotTask; EvPollerSend 0; EvDispatch].

Definition panicSchedule : list Event :=
  startAndPreload 1 ++
  [EvPollerTake 0; EvPollTask 0 gotTask; EvPollerSend 0; EvDispatch;
   EvStop; EvCancel; EvProcess 0 ProcPanic].

(** A complete start / graceful stop: both routines exit, the wait group
    drains and [Stop] returns without timing out. *)
Definition startStopSchedule : list Event :=
  startAndPreload 1 ++ [EvStop; EvCancel; EvPollerExit 0; EvDispExit; EvStopReturn false].

Definition transientSchedule : list Event :=
  startAndPreload 1 ++ [EvPollerTake 0; EvPollTask 0 transientFailure; EvPollerRearm 0].

(** ** The global invariant *)

Definition Inv (w : Worker) : Prop :=
  pollerRequestCh w + outside w + dropped w = issued w /\
  issued w <= capacity w /\
  match dispatcher w with
  | DIdle => issued w = 0
  | DPreload k => issued w = k
  | _ => issued w = capacity w
  end /\
  (stopCh w = false -> dropped w = 0) /\
  stopWG w = live w /\
  (isWorkerStarted w = false ->
     pollers w = [] /\ dispatcher w = DIdle /\ procs w = [] /\ stopCh w = false) /\
  (isWorkerStarted w = true ->
     length (pollers w) = pollerCount (options w) /\ dispatcher w <> DIdle) /\
  (stopCh w = true -> isWorkerStarted w = true) /\
  (limiterCtx w = true -> stopCh w = true) /\
  (mainPc w <> MIdle -> stopCh w = true).

(** ** Shutdown progress *)





(** Number of [ProcessTask] calls in a schedule that panicked. *)
Fixpoint countPanics (evs : list Event) : nat :=
  match evs with
  | [] => 0
  | EvProcess _ ProcPanic :: rest => S (countPanics rest)
  | _ :: rest => countPanics rest
  end.


(** ** List lemmas *)

Lemma sumw_upd {A} (f : A -> nat) l i x y :
  nth_error l i = Some y -> sumw f (upd l i x) + f y = sumw f l + f x.
Proof.
  revert i; induction l as [|h t IH]; intros [|i] E; simpl in *; try discriminate.
  - injection E as ->; lia.
  - specialize (IH i E); lia.
Qed.

Lemma sumw_app {A} (f : A -> nat) l1 l2 : sumw f (l1 ++ l2) = sumw f l1 + sumw f l2.
Proof. induction l1; simpl; lia. Qed.

Lemma sumw_repeat {A} (f : A -> nat) x n : sumw f (repeat x n) = n * f x.
Proof. induction n; simpl; lia. Qed.

Lemma length_upd {A} (l : list A) i x : length (upd l i x) = length l.
Proof. revert i; induction l; intros [|i]; simpl; auto. Qed.

Lemma sumw_le_length {A} (f : A -> nat) l :
  (forall x, f x <= 1) -> sumw f l <= length l.
Proof. intros Hf; induction l; simpl; [lia|]. specialize (Hf a); lia. Qed.

Lemma nth_error_upd_same {A} (l : list A) i x y :
  nth_error l i = Some y -> nth_error (upd l i x) i = Some x.
Proof.
  revert i; induction l; intros [|i] E; simpl in *; try discriminate; auto.
Qed.

Ltac simpw :=
  unfold set_started, set_stopCh, set_limiterCtx, set_mainPc, set_requestCh,
    set_pollers, set_dispatcher, set_procs, set_stopWG, set_failureCount,
    set_panicCounter, set_crashed, set_issued, set_dropped, set_pollsAfterStop,
    set_limiterWaits, mkW, spawn, retrierFailed, retrierSucceeded,
    recordPollError, capacity, limiterWaitFails, outside, live in *;
  cbn -[sumw upd] in *.

Lemma Inv_init o : Inv (newBaseWorker o).
Proof.
  unfold Inv, newBaseWorker; simpw; repeat split; intros; try discriminate; try congruence; lia.
Qed.

(** Facts about a slot update, for each weight function of its list. *)
Ltac upd_facts :=
  repeat match goal with
  | E : nth_error ?l ?i = Some ?y |- context [upd ?l ?i ?x] =>
      first
        [ pose proof (sumw_upd pollerHolds l i x y E);
          pose proof (sumw_upd pollerLive l i x y E);
          pose proof (sumw_upd pollerInTransit l i x y E)
        | pose proof (sumw_upd procHolds l i x y E);
          pose proof (sumw_upd procLive l i x y E) ];
      rewrite ?length_upd; clear E
  end;
  cbn [pollerHolds pollerLive pollerInTransit procHolds procLive dispHolds dispLive] in *.

Ltac fin :=
  unfold Inv; simpw;
  try match goal with E : dispatcher _ = _ |- _ => rewrite E in * end;
  upd_facts; rewrite ?sumw_app in *;
  cbn [sumw procHolds procLive pollerHolds pollerLive pollerInTransit dispHolds dispLive] in *;
  repeat match goal with
         | |- _ /\ _ => split
         | |- _ -> _ => intros
         end;
  try discriminate; try assumption; try congruence; try lia;
  try solve [ match goal with H : _ -> ?G |- ?G => apply H; (discriminate || assumption || congruence) end ];
  try solve [ match goal with |- context [dispatcher ?w] =>
                destruct (dispatcher w); cbn in *; try discriminate; try congruence; lia end ];
  try solve [ match goal with E : stopCh _ = _ |- _ =>
                rewrite E in *; intuition (try discriminate; try congruence) end ].

Lemma Inv_step ev w w' : Inv w -> step ev w = Some w' -> Inv w'.
Proof.
  intros HI Hs. unfold step in Hs. destruct (crashed w); [discriminate|].
  pose proof HI as HI0.
  destruct HI as (I1 & I2 & I3 & I4 & I5 & I6 & I7 & I8 & I9 & I10).
  destruct (isWorkerStarted w) eqn:Est.
  - (* started *)
    destruct (I7 eq_refl) as [Elen Edi]; clear I6 I7.
    destruct ev; cbn -[sumw upd Nat.ltb Nat.eqb] in Hs.
    + destruct (mainPc w); try discriminate.
      injection Hs as <-. unfold Start; rewrite Est; exact HI0.
    + destruct (mainPc w) eqn:Em; try discriminate.
      injection Hs as <-. unfold StopBegin; rewrite Est; cbn.
      destruct (stopCh w) eqn:Esc; fin.
    + destruct (mainPc w) eqn:Em; try discriminate.
      injection Hs as <-. assert (stopCh w = true) by (apply I10; congruence). fin.
    + destruct (mainPc w) eqn:Em; try discriminate.
      destruct ((stopWG w =? 0) || timedOut); try discriminate.
      injection Hs as <-. fin.
    + destruct (nth_error (pollers w) i) as [[]|] eqn:Ei; try discriminate.
      destruct (stopCh w) eqn:Esc; try discriminate.
      injection Hs as <-. fin.
    + destruct (nth_error (pollers w) i) as [[]|] eqn:Ei; try discriminate.
      destruct (0 <? pollerRequestCh w) eqn:Eq; try discriminate.
      apply Nat.ltb_lt in Eq. injection Hs as <-. fin.
    + destruct (nth_error (pollers w) i) as [[]|] eqn:Ei; try discriminate.
      destruct (hasPollLimiter w && limiterWaitFails w).
      * injection Hs as <-. fin.
      * injection Hs as <-. unfold recordPollError.
        destruct (stopCh w) eqn:Esc; destruct (pollErr r) as [[]|]; destruct (hasTask r); fin.
    + destruct (nth_error (pollers w) i) as [[]|] eqn:Ei; try discriminate.
      destruct (dispatcher w) eqn:Ed; try discriminate.
      injection Hs as <-. fin.
    + destruct (nth_error (pollers w) i) as [[]|] eqn:Ei; try discriminate.
      destruct (stopCh w) eqn:Esc; try discriminate.
      injection Hs as <-. fin.
    + destruct (nth_error (pollers w) i) as [[]|] eqn:Ei; try discriminate.
      destruct (pollerRequestCh w <? capacity w) eqn:Eq; try discriminate.
      injection Hs as <-. fin.
    + destruct (dispatcher w) eqn:Ed; try discriminate.
      destruct (i <? capacity w) eqn:Ek.
      * apply Nat.ltb_lt in Ek.
        destruct (pollerRequestCh w <? capacity w); try discriminate.
        injection Hs as <-. fin.
      * apply Nat.ltb_ge in Ek. injection Hs as <-. fin.
    + destruct (dispatcher w) eqn:Ed; try discriminate.
      destruct (stopCh w) eqn:Esc; try discriminate.
      injection Hs as <-. fin.
    + destruct (dispatcher w) eqn:Ed; try discriminate.
      injection Hs as <-. fin.
    + destruct (dispatcher w) as [| | |[]|] eqn:Ed; try discriminate.
      * destruct (limiterWaitFails w && stopCh w) eqn:Ef.
        -- apply andb_true_iff in Ef as [_ Esc]. injection Hs as <-. fin.
        -- injection Hs as <-. fin.
      * injection Hs as <-. fin.
    + destruct (nth_error (procs w) j) as [[]|] eqn:Ej; try discriminate.
      destruct isPolledTask, o; injection Hs as <-; fin.
    + destruct (nth_error (procs w) j) as [[]|] eqn:Ej; try discriminate.
      destruct (pollerRequestCh w <? capacity w) eqn:Eq; try discriminate.
      injection Hs as <-. fin.
  - (* not started: only Start and Stop are enabled *)
    destruct (I6 eq_refl) as (Ep & Ed & Epr & Esc); clear I6 I7.
    assert (Em : mainPc w = MIdle)
      by (destruct (mainPc w); auto; exfalso; specialize (I10 ltac:(discriminate)); congruence).
    destruct ev; cbn -[sumw upd Nat.ltb Nat.eqb] in Hs; rewrite ?Ep, ?Ed, ?Epr, ?Em in Hs;
      try (destruct i; discriminate); try (destruct j; discriminate); try discriminate.
    + injection Hs as <-. unfold Start; rewrite Est.
      unfold outside, live in *. rewrite Ep, Epr in *.
      fin; rewrite ?Epr, ?sumw_repeat, ?repeat_length in *; cbn in *; lia.
    + injection Hs as <-. unfold StopBegin; rewrite Est; cbn. exact HI0.
Qed.

Lemma run_Inv evs : forall w w', Inv w -> run evs w = Some w' -> Inv w'.
Proof.
  induction evs as [|ev evs IH]; intros w w' HI Hr; simpl in Hr.
  - injection Hr as <-; exact HI.
  - destruct (step ev w) as [w1|] eqn:Es; [|discriminate].
    exact (IH w1 w' (Inv_step ev w w1 HI Es) Hr).
Qed.

Lemma Reachable_Inv w : Reachable w -> Inv w.
Proof. intros (o & evs & Hr). exact (run_Inv evs _ _ (Inv_init o) Hr). Qed.

Lemma run_app evs1 evs2 w : run (evs1 ++ evs2) w =
  match run evs1 w with Some w1 => run evs2 w1 | None => None end.
Proof.
  revert w; induction evs1 as [|ev evs IH]; intros w; simpl; auto.
  destruct (step ev w); auto.
Qed.

Lemma Reachable_step ev w w' : Reachable w -> step ev w = Some w' -> Reachable w'.
Proof.
  intros (o & evs & Hr) Hs. exists o, (evs ++ [ev]).
  rewrite run_app, Hr; simpl; rewrite Hs; reflexivity.
Qed.

Lemma step_not_crashed ev w w' : step ev w = Some w' -> crashed w = false.
Proof. unfold step; destruct (crashed w); [discriminate|auto]. Qed.

(** ** C1: permit circulation *)

(** C1 (counterexample): with one poller and one permit, a poller holding a
    polled task when [Stop] closes the stop channel drops the task, and the
    permit it carried is gone while [Stop] is still running: no permit is
    left in circulation although [maxConcurrentTask] = 1. *)
Lemma permit_dropped_while_stopping :
  exists w,
    run (startAndPreload 1 ++ [EvPollerTake 0; EvPollTask 0 gotTask; EvStop; EvPollerDrop 0])
        (newBaseWorker opts_1_0_1) = Some w /\
    mainPc w = MCancel /\ capacity w = 1 /\ pollerRequestCh w + outside w = 0.
Proof. eexists; split; [vm_compute; reflexivity|]. vm_compute; repeat split. Qed.

(** C1 (amended): in every reachable state the pre-load loop has sent at
    most [maxConcurrentTask] permits, exactly [maxConcurrentTask] once it
    has finished; permits in the channel plus permits checked out plus
    permits dropped equal the permits sent, so at most [maxConcurrentTask]
    are checked out; and as long as the stop channel is open nothing was
    dropped, i.e. the permits in circulation are exactly the ones sent. *)
Theorem permits_conserved w :
  Reachable w ->
  pollerRequestCh w + outside w + dropped w = issued w /\
  issued w <= capacity w /\
  (preloadDone w = true -> issued w = capacity w) /\
  outside w <= capacity w /\
  (stopCh w = false -> pollerRequestCh w + outside w = issued w).
Proof.
  intros HR. destruct (Reachable_Inv w HR) as (I1 & I2 & I3 & I4 & _).
  unfold preloadDone. repeat split; try lia.
  - destruct (dispatcher w); intros; try discriminate; assumption.
  - intros Hs; specialize (I4 Hs); lia.
Qed.

Lemma permits_conserved_witness :
  exists w,
    run (startAndPreload 2 ++ [EvPollerTake 0; EvPollTask 0 gotTask; EvPollerSend 0])
        (newBaseWorker opts_1_0_2) = Some w /\
    (pollerRequestCh w + outside w + dropped w = issued w /\
     issued w <= capacity w /\
     (preloadDone w = true -> issued w = capacity w) /\
     outside w <= capacity w /\
     (stopCh w = false -> pollerRequestCh w + outside w = issued w)).
Proof.
  eexists; split; [vm_compute; reflexivity|].
  apply permits_conserved.
  exists opts_1_0_2, (startAndPreload 2 ++ [EvPollerTake 0; EvPollTask 0 gotTask; EvPollerSend 0]).
  vm_compute; reflexivity.
Defined.

(** ** C2: stopping *)

(** C2 (counterexample): after [Stop] has closed the stop channel and
    cancelled the limiter context, a poller whose [select] picks the
    buffered permit (both cases are ready) still calls [PollTask] when no
    poll limiter is configured. *)
Lemma poll_begins_after_stop :
  exists w,
    run (startAndPreload 1 ++ [EvStop; EvCancel; EvPollerTake 0; EvPollTask 0 gotTask])
        (newBaseWorker opts_1_0_1) = Some w /\
    pollsAfterStop w = 1.
Proof. eexists; split; [vm_compute; reflexivity|]. reflexivity. Qed.

(** C2 (amended): once the stop channel is closed, a poll step calls
    [PollTask] unless a poll limiter is configured and the limiter context
    is already cancelled; a poller at the top of its loop can always take
    the exit branch; and [Stop] returns only on timeout or when every
    routine registered with [stopWG] (pollers, dispatcher, processors) has
    returned. *)
Theorem stop_semantics w :
  Reachable w ->
  (forall i r w', step (EvPollTask i r) w = Some w' -> stopCh w = true ->
     pollsAfterStop w' =
       pollsAfterStop w + (if hasPollLimiter w && limiterCtx w then 0 else 1)) /\
  (forall i, crashed w = false -> stopCh w = true ->
     nth_error (pollers w) i = Some PSelect ->
     exists w', step (EvPollerExit i) w = Some w') /\
  (forall t w', step (EvStopReturn t) w = Some w' ->
     mainPc w = MAwait /\ (t = true \/ live w = 0)).
Proof.
  intros HR. destruct (Reachable_Inv w HR) as (_ & _ & _ & _ & I5 & _).
  refine (conj _ (conj _ _)).
  - intros i r w' Hs Hsc. unfold step in Hs. destruct (crashed w); [discriminate|].
    destruct (nth_error (pollers w) i) as [[]|]; try discriminate.
    destruct (hasPollLimiter w && limiterWaitFails w) eqn:E;
      unfold limiterWaitFails in E; rewrite E.
    + injection Hs as <-; simpw; lia.
    + injection Hs as <-; rewrite Hsc. unfold recordPollError.
      destruct (pollErr r) as [[]|]; simpw; lia.
  - intros i Hc Hsc Hp. unfold step. rewrite Hc, Hp, Hsc. eexists; reflexivity.
  - intros t w' Hs. unfold step in Hs. destruct (crashed w); [discriminate|].
    destruct (mainPc w); try discriminate.
    destruct (stopWG w =? 0) eqn:E; destruct t; try discriminate;
      split; auto.
    apply Nat.eqb_eq in E. right; lia.
Qed.

Lemma stop_semantics_witness :
  exists w,
    run (startAndPreload 1 ++ [EvStop; EvCancel]) (newBaseWorker opts_1_0_1) = Some w /\
    ((forall i r w', step (EvPollTask i r) w = Some w' -> stopCh w = true ->
       pollsAfterStop w' =
         pollsAfterStop w + (if hasPollLimiter w && limiterCtx w then 0 else 1)) /\
     (forall i, crashed w = false -> stopCh w = true ->
       nth_error (pollers w) i = Some PSelect ->
       exists w', step (EvPollerExit i) w = Some w') /\
     (forall t w', step (EvStopReturn t) w = Some w' ->
       mainPc w = MAwait /\ (t = true \/ live w = 0))).
Proof.
  eexists; split; [vm_compute; reflexivity|].
  apply stop_semantics.
  exists opts_1_0_1, (startAndPreload 1 ++ [EvStop; EvCancel]).
  vm_compute; reflexivity.
Defined.

(** ** C7: the deferred permit return never blocks *)

Lemma returning_proc_has_room w j :
  Inv w -> nth_error (procs w) j = Some ProcReturn -> pollerRequestCh w < capacity w.
Proof.
  intros (I1 & I2 & _) Ej. unfold outside in I1.
  pose proof (sumw_upd procHolds (procs w) j ProcDone ProcReturn Ej) as H.
  cbn [procHolds] in H. lia.
Qed.

(** C7: in every reachable state, a processor of a polled task that is at
    its deferred [bw.pollerRequestCh <- struct{}{}] finds room in the
    channel, so the send completes (also once the engine is stopping). *)
Theorem permit_return_never_blocks w j :
  Reachable w -> crashed w = false ->
  nth_error (procs w) j = Some ProcReturn ->
  pollerRequestCh w < capacity w /\ exists w', step (EvProcReturn j) w = Some w'.
Proof.
  intros HR Hc Ej. pose proof (returning_proc_has_room w j (Reachable_Inv w HR) Ej) as Hlt.
  split; [exact Hlt|].
  unfold step. rewrite Hc, Ej. apply Nat.ltb_lt in Hlt. rewrite Hlt. eexists; reflexivity.
Qed.

Lemma permit_return_never_blocks_witness :
  exists w,
    run panicSchedule (newBaseWorker opts_1_0_1) = Some w /\
    (pollerRequestCh w < capacity w /\ exists w', step (EvProcReturn 0) w = Some w').
Proof.
  eexists; split; [vm_compute; reflexivity|].
  apply permit_return_never_blocks.
  - exists opts_1_0_1, panicSchedule; vm_compute; reflexivity.
  - reflexivity.
  - reflexivity.
Defined.

(** ** C3: panic isolation *)

(** C3: a processor whose [ProcessTask] panics increments the panic
    counter exactly once, the panic does not escape ([crashed] unchanged),
    and for a polled task the deferred permit return then completes;
    a processor that does not panic leaves the counter unchanged. *)
Theorem processTask_recovers_panic w j b :
  Reachable w -> crashed w = false ->
  nth_error (procs w) j = Some (ProcRun b) ->
  (forall o w', o <> ProcPanic -> step (EvProcess j o) w = Some w' ->
     panicCounter w' = panicCounter w) /\
  exists w', step (EvProcess j ProcPanic) w = Some w' /\
    panicCounter w' = S (panicCounter w) /\ crashed w' = false /\
    (b = false -> nth_error (procs w') j = Some ProcDone) /\
    (b = true -> exists w'', step (EvProcReturn j) w' = Some w'' /\
                  pollerRequestCh w'' = S (pollerRequestCh w') /\
                  nth_error (procs w'') j = Some ProcDone).
Proof.
  intros HR Hc Ej. split.
  - intros o w' Ho Hs. unfold step in Hs. rewrite Hc, Ej in Hs.
    destruct o; try congruence; destruct b; injection Hs as <-; simpw; reflexivity.
  - destruct b.
    + set (w' := set_procs (set_panicCounter w (S (panicCounter w))) (upd (procs w) j ProcReturn)).
      assert (Hs : step (EvProcess j ProcPanic) w = Some w')
        by (unfold step; rewrite Hc, Ej; reflexivity).
      exists w'. split; [exact Hs|]. split; [reflexivity|]. split; [exact Hc|].
      split; [discriminate|]. intros _.
      assert (Ej' : nth_error (procs w') j = Some ProcReturn)
        by (apply (nth_error_upd_same _ _ _ _ Ej)).
      destruct (permit_return_never_blocks w' j (Reachable_step _ _ _ HR Hs) Hc Ej')
        as [Hlt [w'' Hs']].
      exists w''. split; [exact Hs'|].
      unfold step in Hs'. change (crashed w') with (crashed w) in Hs'.
      rewrite Hc, Ej' in Hs'. apply Nat.ltb_lt in Hlt. rewrite Hlt in Hs'.
      injection Hs' as <-. simpw. split; [reflexivity|].
      apply (nth_error_upd_same _ _ _ _ Ej').
    + eexists. split; [unfold step; rewrite Hc, Ej; reflexivity|].
      simpw. split; [reflexivity|]. split; [exact Hc|]. split; [|discriminate].
      intros _. apply (nth_error_upd_same _ _ _ _ Ej).
Qed.

Lemma processTask_recovers_panic_witness :
  exists w,
    run dispatchedSchedule (newBaseWorker opts_1_0_1) = Some w /\
    ((forall o w', o <> ProcPanic -> step (EvProcess 0 o) w = Some w' ->
        panicCounter w' = panicCounter w) /\
     exists w', step (EvProcess 0 ProcPanic) w = Some w' /\
       panicCounter w' = S (panicCounter w) /\ crashed w' = false /\
       (true = false -> nth_error (procs w') 0 = Some ProcDone) /\
       (true = true -> exists w'', step (EvProcReturn 0) w' = Some w'' /\
                       pollerRequestCh w'' = S (pollerRequestCh w') /\
                       nth_error (procs w'') 0 = Some ProcDone)).
Proof.
  eexists; split; [vm_compute; reflexivity|].
  apply processTask_recovers_panic.
  - exists opts_1_0_1, dispatchedSchedule; vm_compute; reflexivity.
  - reflexivity.
  - reflexivity.
Defined.

(** ** C4 and C10: lifecycle *)

Lemma Start_started_noop w : isWorkerStarted w = true -> Start w = w.
Proof. intros E. unfold Start. rewrite E. reflexivity. Qed.

Lemma isWorkerStarted_Start w : isWorkerStarted (Start w) = true.
Proof. unfold Start. destruct (isWorkerStarted w) eqn:E; [exact E|reflexivity]. Qed.

(** C4 (failing input): a second [Stop] after a first one has returned
    closes [stopCh] again, a Go panic; a second [Start] changes nothing and
    [Stop] before [Start] changes nothing. *)
Theorem Stop_twice_panics :
  (exists w, run startStopSchedule (newBaseWorker opts_1_0_1) = Some w /\
             crashed w = false /\ mainPc w = MIdle /\
             step EvStop w = Some (set_crashed w true)) /\
  (forall w, Start (Start w) = Start w) /\
  (forall w, isWorkerStarted w = false -> StopBegin w = w).
Proof.
  split; [|split].
  - eexists; split; [vm_compute; reflexivity|]. vm_compute. repeat split.
  - intros w. apply Start_started_noop, isWorkerStarted_Start.
  - intros w E. unfold StopBegin; rewrite E; reflexivity.
Qed.

(** C10: once [Stop] has closed the stop channel and returned, [Start]
    is a no-op: [isWorkerStarted] stays true, so no routine is launched. *)
Theorem Start_after_Stop_noop w :
  Reachable w -> crashed w = false -> stopCh w = true -> mainPc w = MIdle ->
  isWorkerStarted w = true /\ step EvStart w = Some w.
Proof.
  intros HR Hc Hs Hm. destruct (Reachable_Inv w HR) as (_ & _ & _ & _ & _ & _ & _ & I8 & _).
  pose proof (I8 Hs) as Est. split; [exact Est|].
  unfold step. rewrite Hc, Hm. unfold Start. rewrite Est. reflexivity.
Qed.

Lemma Start_after_Stop_noop_witness :
  exists w, run startStopSchedule (newBaseWorker opts_1_0_1) = Some w /\
    (isWorkerStarted w = true /\ step EvStart w = Some w).
Proof.
  eexists; split; [vm_compute; reflexivity|].
  apply Start_after_Stop_noop; [| reflexivity | reflexivity | reflexivity].
  exists opts_1_0_1, startStopSchedule; vm_compute; reflexivity.
Defined.

(** ** C8: tasks between the source and a processor *)

(** C8 (counterexample): with one poller, the dispatcher holds one polled
    task while it waits on the task limiter and the poller, having taken
    the second permit, holds another one blocked on the hand-off: two
    tasks have left [PollTask] without reaching a processor. *)
Lemma two_tasks_in_transit_one_poller :
  exists w,
    run (startAndPreload 2 ++
         [EvPollerTake 0; EvPollTask 0 gotTask; EvPollerSend 0;
          EvPollerTake 0; EvPollTask 0 gotTask]) (newBaseWorker opts_1_0_2) = Some w /\
    pollerCount (options w) = 1 /\ inTransit w = 2.
Proof. eexists; split; [vm_compute; reflexivity|]. vm_compute; split; reflexivity. Qed.

(** C8 (amended): the tasks that left [PollTask] but are not yet handed
    to a processor are at most [pollerCount] + 1: one per poller blocked on
    the unbuffered hand-off, plus the one the dispatcher holds while it
    waits on the task limiter. *)
Theorem inTransit_bound w :
  Reachable w -> inTransit w <= pollerCount (options w) + 1.
Proof.
  intros HR. destruct (Reachable_Inv w HR) as (_ & _ & _ & _ & _ & I6 & I7 & _).
  unfold inTransit.
  assert (Hd : dispHolds (dispatcher w) <= 1) by (destruct (dispatcher w) as [| | |[]|]; cbn; lia).
  destruct (isWorkerStarted w).
  - destruct (I7 eq_refl) as [Hl _].
    pose proof (sumw_le_length pollerInTransit (pollers w) ltac:(intros []; cbn; lia)).
    lia.
  - destruct (I6 eq_refl) as [Hp _]. rewrite Hp; cbn. lia.
Qed.

Lemma inTransit_bound_witness :
  exists w,
    run (startAndPreload 2 ++
         [EvPollerTake 0; EvPollTask 0 gotTask; EvPollerSend 0;
          EvPollerTake 0; EvPollTask 0 gotTask]) (newBaseWorker opts_1_0_2) = Some w /\
    inTransit w <= pollerCount (options w) + 1.
Proof.
  eexists; split; [vm_compute; reflexivity|].
  apply inTransit_bound.
  exists opts_1_0_2, (startAndPreload 2 ++
         [EvPollerTake 0; EvPollTask 0 gotTask; EvPollerSend 0;
          EvPollerTake 0; EvPollTask 0 gotTask]).
  vm_compute; reflexivity.
Defined.

(** ** C5: poll outcome and retrier *)

(** C5 (counterexample): after a transient poll error the poller calls
    [Failed()] and then, in the same [pollTask] call, puts its permit back
    into [pollerRequestCh]: the permit is re-armed immediately. *)
Lemma transient_failure_rearms_immediately :
  exists w, run transientSchedule (newBaseWorker opts_1_0_1) = Some w /\
    failureCount w = 1 /\ pollerRequestCh w = 1 /\ pollers w = [PSelect].
Proof. eexists; split; [vm_compute; reflexivity|]. vm_compute; repeat split. Qed.

(** C5 (amended): when [PollTask] is called, a transient error calls
    [Failed()] (one more consecutive failure) and any other outcome,
    non-transient error or success, calls [Succeeded()] (count reset); if
    no task came back the poller's next action is to return the permit
    (re-arm), whatever the error, and if a task came back it is offered to
    the dispatcher. *)
Theorem pollTask_outcome w i r w' :
  nth_error (pollers w) i = Some PHasPermit ->
  hasPollLimiter w && limiterCtx w = false ->
  step (EvPollTask i r) w = Some w' ->
  failureCount w' =
    match pollErr r with Some Transient => S (failureCount w) | _ => 0 end /\
  nth_error (pollers w') i = Some (if hasTask r then PSend else PRearm).
Proof.
  intros Ei Hl Hs. unfold step in Hs. destruct (crashed w); [discriminate|].
  rewrite Ei in Hs. unfold limiterWaitFails in Hs. rewrite Hl in Hs.
  injection Hs as <-. unfold recordPollError.
  destruct (stopCh w), (pollErr r) as [[]|]; simpw;
    (split; [reflexivity | apply (nth_error_upd_same _ _ _ _ Ei)]).
Qed.

Lemma pollTask_outcome_witness :
  exists w w',
    run (startAndPreload 1 ++ [EvPollerTake 0]) (newBaseWorker opts_1_0_1) = Some w /\
    run (startAndPreload 1 ++ [EvPollerTake 0; EvPollTask 0 transientFailure])
        (newBaseWorker opts_1_0_1) = Some w' /\
    (failureCount w' =
       match pollErr transientFailure with Some Transient => S (failureCount w) | _ => 0 end /\
     nth_error (pollers w') 0 = Some (if hasTask transientFailure then PSend else PRearm)).
Proof.
  do 2 eexists; split; [vm_compute; reflexivity|]; split; [vm_compute; reflexivity|].
  apply (pollTask_outcome _ 0 transientFailure); vm_compute; reflexivity.
Defined.

(** ** C9: the task limiter applies to polled tasks only *)

Lemma limiterWaits_only_at_polled_dispatch ev w w' :
  step ev w = Some w' -> limiterWaits w' <> limiterWaits w ->
  ev = EvDispatch /\ dispatcher w = DLimit true.
Proof.
  intros Hs Hne. unfold step in Hs. destruct (crashed w); [discriminate|].
  destruct ev;
    repeat match goal with
           | H : context [match ?x with _ => _ end] |- _ => destruct x eqn:?
           | H : context [if ?x then _ else _] |- _ => destruct x eqn:?
           end;
    try discriminate; injection Hs as <-;
    unfold Start, StopBegin, recordPollError in *;
    try (match goal with r : PollResult |- _ => destruct (pollErr r) as [[]|] end);
    simpw;
    repeat match goal with
           | H : context [if ?x then _ else _] |- _ => destruct x eqn:?; simpw
           | |- context [if ?x then _ else _] => destruct x eqn:?; simpw
           end;
    try congruence; auto.
Qed.

(** C9: the dispatcher calls [taskLimiter.Wait] (ghost counter
    [limiterWaits]) exactly when it handles a polled task, and nowhere
    else; a local task is handed to a new processor with no wait; a
    polled task is handed to a new processor unless the wait failed
    because the limiter context was cancelled and the stop channel is
    closed, in which case the dispatcher returns. *)
Theorem dispatch_taskLimiter w b w' :
  dispatcher w = DLimit b -> step EvDispatch w = Some w' ->
  (forall ev w1 w2, step ev w1 = Some w2 -> limiterWaits w2 <> limiterWaits w1 ->
     ev = EvDispatch /\ dispatcher w1 = DLimit true) /\
  limiterWaits w' = limiterWaits w + (if b then 1 else 0) /\
  (if b && limiterCtx w && stopCh w
   then dispatcher w' = DDone /\ procs w' = procs w
   else dispatcher w' = DLoop /\ procs w' = procs w ++ [ProcRun b]).
Proof.
  intros Ed Hs. split; [exact limiterWaits_only_at_polled_dispatch|].
  unfold step in Hs. destruct (crashed w); [discriminate|]. rewrite Ed in Hs.
  unfold limiterWaitFails in Hs.
  destruct b; cbn [andb].
  - destruct (limiterCtx w && stopCh w); injection Hs as <-; simpw; split; auto; lia.
  - injection Hs as <-; simpw; split; auto; lia.
Qed.

Lemma dispatch_taskLimiter_witness :
  exists w w',
    run (startAndPreload 1 ++ [EvInject]) (newBaseWorker opts_1_0_1) = Some w /\
    run (startAndPreload 1 ++ [EvInject; EvDispatch]) (newBaseWorker opts_1_0_1) = Some w' /\
    ((forall ev w1 w2, step ev w1 = Some w2 -> limiterWaits w2 <> limiterWaits w1 ->
       ev = EvDispatch /\ dispatcher w1 = DLimit true) /\
     limiterWaits w' = limiterWaits w + (if false then 1 else 0) /\
     (if false && limiterCtx w && stopCh w
      then dispatcher w' = DDone /\ procs w' = procs w
      else dispatcher w' = DLoop /\ procs w' = procs w ++ [ProcRun false])).
Proof.
  do 2 eexists; split; [vm_compute; reflexivity|]; split; [vm_compute; reflexivity|].
  apply (dispatch_taskLimiter _ false); vm_compute; reflexivity.
Defined.

(** ** Sends into the permit channel *)

Lemma rearming_poller_has_room w i :
  Inv w -> nth_error (pollers w) i = Some PRearm -> pollerRequestCh w < capacity w.
Proof.
  intros (I1 & I2 & _) Ei. unfold outside in I1.
  pose proof (sumw_upd pollerHolds (pollers w) i PSelect PRearm Ei) as H.
  cbn [pollerHolds] in H. lia.
Qed.

Lemma preloading_dispatcher_has_room w k :
  Inv w -> dispatcher w = DPreload k -> k < capacity w -> pollerRequestCh w < capacity w.
Proof. intros (I1 & _ & I3 & _) Ed Hk. rewrite Ed in I3. lia. Qed.

(** In every reachable state the permit channel holds at most
    [maxConcurrentTask] permits, and the two other sends into it never
    block: a poller re-arming after a poll that returned no task, and the
    dispatcher in its pre-load loop, both find room in the channel. *)
Theorem permit_sends_never_block w :
  Reachable w -> crashed w = false ->
  pollerRequestCh w <= capacity w /\
  (forall i, nth_error (pollers w) i = Some PRearm ->
     exists w', step (EvPollerRearm i) w = Some w' /\
       pollerRequestCh w' = S (pollerRequestCh w) /\
       nth_error (pollers w') i = Some PSelect) /\
  (forall k, dispatcher w = DPreload k -> k < capacity w ->
     exists w', step EvPreload w = Some w' /\
       pollerRequestCh w' = S (pollerRequestCh w) /\ dispatcher w' = DPreload (S k)).
Proof.
  intros HR Hc. pose proof (Reachable_Inv w HR) as HI.
  refine (conj _ (conj _ _)).
  - destruct HI as (I1 & I2 & _). lia.
  - intros i Ei. pose proof (rearming_poller_has_room w i HI Ei) as Hlt.
    apply Nat.ltb_lt in Hlt. eexists. split.
    + unfold step. rewrite Hc, Ei, Hlt. reflexivity.
    + simpw. split; [reflexivity|]. apply (nth_error_upd_same _ _ _ _ Ei).
  - intros k Ed Hk. pose proof (preloading_dispatcher_has_room w k HI Ed Hk) as Hlt.
    apply Nat.ltb_lt in Hlt, Hk. eexists. split.
    + unfold step. rewrite Hc, Ed, Hk, Hlt. reflexivity.
    + simpw. split; reflexivity.
Qed.

Lemma permit_sends_never_block_witness :
  exists w,
    run transientSchedule (newBaseWorker opts_1_0_2) = Some w /\
    (pollerRequestCh w <= capacity w /\
     (forall i, nth_error (pollers w) i = Some PRearm ->
        exists w', step (EvPollerRearm i) w = Some w' /\
          pollerRequestCh w' = S (pollerRequestCh w) /\
          nth_error (pollers w') i = Some PSelect) /\
     (forall k, dispatcher w = DPreload k -> k < capacity w ->
        exists w', step EvPreload w = Some w' /\
          pollerRequestCh w' = S (pollerRequestCh w) /\ dispatcher w' = DPreload (S k))).
Proof.
  eexists; split; [vm_compute; reflexivity|].
  apply permit_sends_never_block; [|reflexivity].
  exists opts_1_0_2, transientSchedule; vm_compute; reflexivity.
Defined.

(** ** Wait-group accounting *)

(** In every reachable state the [stopWG] counter equals the number of
    goroutines launched by [Start] and by the dispatcher that have not
    returned yet: pollers, the dispatcher, and processors. *)
Theorem stopWG_counts_live_routines w :
  Reachable w ->
  stopWG w = sumw pollerLive (pollers w) + dispLive (dispatcher w) + sumw procLive (procs w).
Proof. intros HR. destruct (Reachable_Inv w HR) as (_ & _ & _ & _ & I5 & _). exact I5. Qed.

Lemma stopWG_counts_live_routines_witness :
  exists w,
    run dispatchedSchedule (newBaseWorker opts_1_0_1) = Some w /\
    stopWG w = sumw pollerLive (pollers w) + dispLive (dispatcher w) + sumw procLive (procs w).
Proof.
  eexists; split; [vm_compute; reflexivity|].
  apply stopWG_counts_live_routines.
  exists opts_1_0_1, dispatchedSchedule; vm_compute; reflexivity.
Defined.

(** ** Draining after [Stop] *)








(** ** The panic counter *)

Lemma step_panicCounter ev w w' :
  step ev w = Some w' ->
  panicCounter w' = panicCounter w + match ev with EvProcess _ ProcPanic => 1 | _ => 0 end.
Proof.
  intros Hs. unfold step in Hs. destruct (crashed w); [discriminate|].
  destruct ev;
    repeat match goal with
           | H : context [match ?x with _ => _ end] |- _ => destruct x eqn:?
           | H : context [if ?x then _ else _] |- _ => destruct x eqn:?
           end;
    try discriminate; injection Hs as <-;
    unfold Start, StopBegin, recordPollError in *;
    try (match goal with r : PollResult |- _ => destruct (pollErr r) as [[]|] end);
    simpw;
    repeat match goal with
           | |- context [if ?x then _ else _] => destruct x eqn:?; simpw
           end;
    try lia.
Qed.

(** [metrics.WorkerPanicCounter] counts the [ProcessTask] calls that
    panicked: along any schedule it grows by exactly the number of
    processor steps whose task panicked, and no other step changes it. *)
Theorem panicCounter_counts_panics evs : forall w w',
  run evs w = Some w' -> panicCounter w' = panicCounter w + countPanics evs.
Proof.
  induction evs as [|ev evs IH]; intros w w' Hr; cbn [run] in Hr.
  - injection Hr as <-. cbn. lia.
  - destruct (step ev w) as [w1|] eqn:Es; [|discriminate].
    rewrite (IH w1 w' Hr), (step_panicCounter ev w w1 Es).
    destruct ev as [| | | | | | | | | | | | | |j []|]; cbn [countPanics]; lia.
Qed.

Lemma panicCounter_counts_panics_witness :
  exists w,
    run panicSchedule (newBaseWorker opts_1_0_1) = Some w /\
    panicCounter w = panicCounter (newBaseWorker opts_1_0_1) + countPanics panicSchedule.
Proof.
  eexists; split; [vm_compute; reflexivity|].
  apply (panicCounter_counts_panics panicSchedule). vm_compute; reflexivity.
Defined.
End BaseWorker.

(** * Properties of the poll retry policy *)

Module PollRetry.
Import Backoff.

Lemma pow_mono_succ c k : 1 <= c -> c ^ k <= c ^ S k.
Proof. intros Hc. rewrite Nat.pow_succ_r'. nia. Qed.

(** C6: for the poll retry policy (for any coefficient >= 1), the delay
    computation never answers [Done]; a [Succeeded] followed by one
    [Failed] gives the initial interval, 20ms, and [Succeeded] alone no
    delay; each further [Failed] without a [Succeeded] gives a delay at
    least as long; and every delay is at most the maximum interval, 10s. *)
Theorem pollRetryPolicy_backoff coef defExp :
  1 <= coef ->
  (forall el k, ComputeNextDelay (createPollRetryPolicy coef defExp) el k <> Done) /\
  (forall el, ThrottleDelay (Failed (NewConcurrentRetrier (createPollRetryPolicy coef defExp))) el
              = retryPollOperationInitialInterval) /\
  (forall r el, retryPolicy r = createPollRetryPolicy coef defExp ->
     ThrottleDelay (Failed (Succeeded r)) el = retryPollOperationInitialInterval /\
     ThrottleDelay (Succeeded r) el = 0) /\
  (forall r el el', retryPolicy r = createPollRetryPolicy coef defExp ->
     ThrottleDelay r el <= ThrottleDelay (Failed r) el') /\
  (forall r el, retryPolicy r = createPollRetryPolicy coef defExp ->
     ThrottleDelay r el <= retryPollOperationMaxInterval).
Proof.
  intros Hc.
  refine (conj _ (conj _ (conj _ (conj _ _)))).
  - intros el k. cbn. discriminate.
  - intros el. cbn. reflexivity.
  - intros r el Hp. unfold ThrottleDelay, Failed, Succeeded. cbn. rewrite Hp. cbn.
    split; reflexivity.
  - intros r el el' Hp. unfold ThrottleDelay, Failed. cbn [failureCount retryPolicy].
    rewrite Hp. destruct (failureCount r) as [|k]; [lia|].
    unfold ComputeNextDelay, createPollRetryPolicy, capInterval; cbn -[Nat.pow Nat.min].
    pose proof (pow_mono_succ coef k Hc). unfold retryPollOperationInitialInterval,
      retryPollOperationMaxInterval. nia.
  - intros r el Hp. unfold ThrottleDelay. rewrite Hp.
    destruct (failureCount r) as [|k]; [lia|].
    unfold ComputeNextDelay, createPollRetryPolicy, capInterval; cbn -[Nat.pow Nat.min].
    unfold retryPollOperationMaxInterval. lia.
Qed.

Lemma pollRetryPolicy_backoff_witness :
  1 <= 2 /\
  (forall el k, ComputeNextDelay (createPollRetryPolicy 2 (Some 60000)) el k <> Done) /\
  (forall el, ThrottleDelay (Failed (NewConcurrentRetrier (createPollRetryPolicy 2 (Some 60000)))) el
              = retryPollOperationInitialInterval) /\
  (forall r el, retryPolicy r = createPollRetryPolicy 2 (Some 60000) ->
     ThrottleDelay (Failed (Succeeded r)) el = retryPollOperationInitialInterval /\
     ThrottleDelay (Succeeded r) el = 0) /\
  (forall r el el', retryPolicy r = createPollRetryPolicy 2 (Some 60000) ->
     ThrottleDelay r el <= ThrottleDelay (Failed r) el') /\
  (forall r el, retryPolicy r = createPollRetryPolicy 2 (Some 60000) ->
     ThrottleDelay r el <= retryPollOperationMaxInterval).
Proof. split; [lia|]. apply (pollRetryPolicy_backoff 2 (Some 60000)). lia. Defined.

End PollRetry.

(** * Properties of the metrics wrapper *)

Module MetricsWrapperProps.
Import MetricsWrapper.
Import Stdlib.Strings.String.

(** [getScope] memoises: after a call for a name, the name is cached with
    the scope that call returned, and a second call for the same name
    returns the same scope and changes nothing; [SubScope] is called only
    when the name was not cached yet. *)
Theorem getScope_memoised w scopeName scope w' :
  getScope w scopeName = (scope, w') ->
  getScope w' scopeName = (scope, w') /\
  lookupScope scopeName (childScopes w') = Some scope /\
  subScopeCalls w' =
    subScopeCalls w ++ match lookupScope scopeName (childScopes w) with
                       | Some _ => []
                       | None => [scopeName]
                       end.
Proof.
  unfold getScope. destruct (lookupScope scopeName (childScopes w)) as [s|] eqn:E.
  - intros Hg; injection Hg as <- <-. rewrite E, app_nil_r. auto.
  - intros Hg; injection Hg as <- <-. cbn. rewrite String.eqb_refl. auto.
Qed.

Lemma getScope_memoised_witness :
  getScope NewWorkflowServiceWrapperGRPC "ListDomains"%string =
    ("ListDomains"%string, snd (getScope NewWorkflowServiceWrapperGRPC "ListDomains"%string)) /\
  (getScope (snd (getScope NewWorkflowServiceWrapperGRPC "ListDomains"%string)) "ListDomains"%string =
     ("ListDomains"%string, snd (getScope NewWorkflowServiceWrapperGRPC "ListDomains"%string)) /\
   lookupScope "ListDomains"%string
     (childScopes (snd (getScope NewWorkflowServiceWrapperGRPC "ListDomains"%string)))
     = Some "ListDomains"%string /\
   subScopeCalls (snd (getScope NewWorkflowServiceWrapperGRPC "ListDomains"%string)) =
     subScopeCalls NewWorkflowServiceWrapperGRPC ++
       match lookupScope "ListDomains"%string (childScopes NewWorkflowServiceWrapperGRPC) with
       | Some _ => []
       | None => ["ListDomains"%string]
       end).
Proof.
  split; [reflexivity|]. apply getScope_memoised. reflexivity.
Defined.

Lemma callOperation_scopes scopeName err w :
  childScopes (snd (callOperation scopeName tt err w)) = childScopes (snd (getScope w scopeName)) /\
  subScopeCalls (snd (callOperation scopeName tt err w)) = subScopeCalls (snd (getScope w scopeName)).
Proof.
  unfold callOperation, getOperationScope.
  destruct (getScope w scopeName) as [s w1].
  unfold handleError; destruct err as [e|]; [destruct (fromErrorCode e)|]; cbn; auto.
Qed.

Lemma getScope_cacheOk w scopeName :
  ScopeCacheOk w ->
  ScopeCacheOk (snd (getScope w scopeName)) /\
  (forall n, In n (subScopeCalls (snd (getScope w scopeName))) <->
             In n (subScopeCalls w) \/ n = scopeName).
Proof.
  intros (Hnd & Hin & Hid). unfold getScope.
  destruct (lookupScope scopeName (childScopes w)) as [s|] eqn:E; cbn.
  - split; [exact (conj Hnd (conj Hin Hid))|].
    intros n; split; [tauto|]. intros [H| ->]; [exact H|]. apply Hin. congruence.
  - assert (Hnot : ~ In scopeName (subScopeCalls w)) by (rewrite Hin; tauto).
    split; [unfold ScopeCacheOk; cbn; refine (conj _ (conj _ _))|].
    + apply NoDup_app; [exact Hnd | repeat constructor; intros [] |].
      intros x Hx [<-|[]]. contradiction.
    + intros n. rewrite in_app_iff. cbn.
      destruct (String.eqb scopeName n) eqn:En.
      * apply String.eqb_eq in En; subst. split; [discriminate | tauto].
      * assert (scopeName <> n) by (intros ->; rewrite String.eqb_refl in En; discriminate).
        rewrite <- Hin. intuition.
    + intros n s'. destruct (String.eqb scopeName n) eqn:En.
      * apply String.eqb_eq in En; subst. intros Hs; injection Hs as <-; reflexivity.
      * apply Hid.
    + intros n. rewrite in_app_iff. cbn. intuition.
Qed.

Lemma runCalls_cacheOk calls : forall w,
  ScopeCacheOk w ->
  ScopeCacheOk (runCalls calls w) /\
  (forall n, In n (subScopeCalls (runCalls calls w)) <->
             In n (subScopeCalls w) \/ In n (map fst calls)).
Proof.
  induction calls as [|[n0 e] calls IH]; intros w Hok; cbn [runCalls map].
  - split; [exact Hok|]. cbn; tauto.
  - destruct (callOperation_scopes n0 e w) as [Ec Es].
    destruct (getScope_cacheOk w n0 Hok) as [[Hnd [Hin Hid]] Hn].
    assert (Hok1 : ScopeCacheOk (snd (callOperation n0 tt e w))).
    { unfold ScopeCacheOk. rewrite Ec, Es. repeat split; auto; apply Hin. }
    destruct (IH _ Hok1) as [Hok2 Hn2]. split; [exact Hok2|].
    intros n. rewrite Hn2, Es, Hn. cbn. intuition (subst; auto).
Qed.

(** Over any sequence of RPC calls on a new wrapper, [SubScope] is called
    once for each scope name used and never twice for the same name, and
    the scope cached for a name is the sub-scope of that name. *)
Theorem subScope_once_per_name calls :
  NoDup (subScopeCalls (runCalls calls NewWorkflowServiceWrapperGRPC)) /\
  (forall n, In n (subScopeCalls (runCalls calls NewWorkflowServiceWrapperGRPC)) <->
             In n (map fst calls)) /\
  (forall n, In n (map fst calls) ->
     lookupScope n (childScopes (runCalls calls NewWorkflowServiceWrapperGRPC)) = Some n).
Proof.
  assert (Hok0 : ScopeCacheOk NewWorkflowServiceWrapperGRPC).
  { repeat split; cbn; try constructor; try tauto; try discriminate. }
  destruct (runCalls_cacheOk calls _ Hok0) as [(Hnd & Hin & Hid) Hn].
  refine (conj Hnd (conj _ _)).
  - intros n. rewrite Hn. cbn. tauto.
  - intros n Hc. assert (Hc' := proj2 (Hn n) (or_intror Hc)).
    apply Hin in Hc'. destruct (lookupScope n _) as [s|] eqn:E; [|contradiction].
    rewrite (Hid n s E). reflexivity.
Qed.

Lemma getScope_fst w scopeName :
  ScopeCacheOk w -> fst (getScope w scopeName) = scopeName.
Proof.
  intros (_ & _ & Hid). unfold getScope.
  destruct (lookupScope scopeName (childScopes w)) as [s|] eqn:E; cbn; [|reflexivity].
  exact (Hid _ _ E).
Qed.

Lemma getScope_metrics w scopeName :
  counters (snd (getScope w scopeName)) = counters w /\
  latencyRecords (snd (getScope w scopeName)) = latencyRecords w.
Proof.
  unfold getScope. destruct (lookupScope scopeName (childScopes w)); cbn; auto.
Qed.

Lemma callOperation_unfold scopeName err w :
  callOperation scopeName tt err w =
  ((tt, err),
   handleError (incCounter (snd (getScope w scopeName)) (fst (getScope w scopeName)) CadenceRequest)
     (fst (getScope w scopeName)) err).
Proof. unfold callOperation, getOperationScope. destruct (getScope w scopeName); reflexivity. Qed.

Lemma callOperation_counters scopeName err w :
  ScopeCacheOk w ->
  forall s,
  counters (snd (callOperation scopeName tt err w)) s CadenceRequest =
    counters w s CadenceRequest + (if String.eqb s scopeName then 1 else 0) /\
  latencyRecords (snd (callOperation scopeName tt err w)) s =
    latencyRecords w s + (if String.eqb s scopeName then 1 else 0) /\
  counters (snd (callOperation scopeName tt err w)) s CadenceInvalidRequest =
    counters w s CadenceInvalidRequest +
    (if String.eqb s scopeName then
       match err with Some e => if isInvalidRequestCode (fromErrorCode e) then 1 else 0 | None => 0 end
     else 0) /\
  counters (snd (callOperation scopeName tt err w)) s CadenceError =
    counters w s CadenceError +
    (if String.eqb s scopeName then
       match err with Some e => if isInvalidRequestCode (fromErrorCode e) then 0 else 1 | None => 0 end
     else 0).
Proof.
  intros Hok s. rewrite callOperation_unfold, (getScope_fst w scopeName Hok).
  destruct (getScope_metrics w scopeName) as [Hc Hl].
  unfold handleError, incCounter, recordLatency.
  destruct err as [e|]; [destruct (fromErrorCode e) eqn:Ee|]; cbn [snd counters latencyRecords];
    rewrite Hc, Hl; destruct (String.eqb s scopeName); cbn; lia.
Qed.

Lemma runCalls_counts calls : forall w,
  ScopeCacheOk w ->
  forall s,
  counters (runCalls calls w) s CadenceRequest =
    counters w s CadenceRequest + List.length (callsTo s calls) /\
  latencyRecords (runCalls calls w) s = latencyRecords w s + List.length (callsTo s calls) /\
  counters (runCalls calls w) s CadenceInvalidRequest =
    counters w s CadenceInvalidRequest + List.length (invalidRequestCalls (callsTo s calls)) /\
  counters (runCalls calls w) s CadenceError =
    counters w s CadenceError + List.length (otherErrorCalls (callsTo s calls)).
Proof.
  induction calls as [|[n0 e] calls IH]; intros w Hok s; cbn [runCalls].
  - cbn. lia.
  - destruct (callOperation_scopes n0 e w) as [Ec Es].
    destruct (getScope_cacheOk w n0 Hok) as [[Hnd [Hin Hid]] _].
    assert (Hok1 : ScopeCacheOk (snd (callOperation n0 tt e w))).
    { unfold ScopeCacheOk. rewrite Ec, Es. repeat split; auto; apply Hin. }
    destruct (IH _ Hok1 s) as (H1 & H2 & H3 & H4).
    destruct (callOperation_counters n0 e w Hok s) as (C1 & C2 & C3 & C4).
    rewrite H1, H2, H3, H4, C1, C2, C3, C4.
    unfold callsTo, invalidRequestCalls, otherErrorCalls; cbn [filter fst snd].
    rewrite (String.eqb_sym n0 s).
    destruct (String.eqb s n0); cbn [filter List.length snd];
      [destruct e as [e|]; [destruct (isInvalidRequestCode (fromErrorCode e))|]|];
      cbn [negb List.length]; lia.
Qed.

(** For any sequence of RPC calls on a new wrapper, every operation scope
    counts one [CadenceRequest] and records one [CadenceLatency] per call
    of that operation; a call whose error has code NotFound,
    InvalidArgument or AlreadyExists counts one [CadenceInvalidRequest],
    a call with any other error (including an error that is not a yarpc
    status) counts one [CadenceError], and a call without error counts
    neither. *)
Theorem operation_metrics_counts calls s :
  let w := runCalls calls NewWorkflowServiceWrapperGRPC in
  counters w s CadenceRequest = List.length (callsTo s calls) /\
  latencyRecords w s = List.length (callsTo s calls) /\
  counters w s CadenceInvalidRequest = List.length (invalidRequestCalls (callsTo s calls)) /\
  counters w s CadenceError = List.length (otherErrorCalls (callsTo s calls)).
Proof.
  assert (Hok0 : ScopeCacheOk NewWorkflowServiceWrapperGRPC).
  { repeat split; cbn; try constructor; try tauto; try discriminate. }
  exact (runCalls_counts calls _ Hok0 s).
Qed.

End MetricsWrapperProps.

(** * Properties of the test data converter *)

Module TestDataConverterProps.
Import TestDataConverter.
Import Stdlib.Strings.String.

Section Props.
Context {V : Type} `{Gob V} `{MetadataKeys}.

Lemma toDataItems_ok values : forall i payload,
  toDataItems i values = inr payload ->
  List.length payload = List.length values /\
  forall k item, nth_error payload k = Some item ->
    exists v, nth_error values k = Some v /\ gobEncode v = Some (Data item) /\
      Metadata item = [(encodingMetadata, encodingMetadataGob); (nameMetadata, argName (i + k))].
Proof.
  induction values as [|v vs IH]; intros i p Hp; cbn in Hp.
  - injection Hp as <-. split; [reflexivity|]. intros [|k] item Hk; discriminate.
  - destruct (gobEncode v) as [b|] eqn:Eb; [|discriminate].
    destruct (toDataItems (S i) vs) as [e|items] eqn:Er; [discriminate|].
    injection Hp as <-. destruct (IH _ _ Er) as [Hl Hk].
    split; [cbn; congruence|].
    intros [|k] item Hi; cbn in Hi.
    + injection Hi as <-. exists v. cbn. rewrite Nat.add_0_r. auto.
    + destruct (Hk k item Hi) as (v' & Hv' & He & Hm). exists v'.
      rewrite Hm. replace (S i + k) with (i + S k) by lia. auto.
Qed.

(** On success, [ToData] gives one payload item per value, in order: the
    item's data is the gob encoding of the value, its encoding metadata is
    the gob encoding name, and its name metadata is ["args[i]"] for the
    item at index [i]. *)
Theorem ToData_items values payload :
  ToData values = inr payload ->
  List.length payload = List.length values /\
  forall i item, nth_error payload i = Some item ->
    exists v, nth_error values i = Some v /\ gobEncode v = Some (Data item) /\
      lookupMeta encodingMetadata (Metadata item) = Some encodingMetadataGob /\
      (encodingMetadata <> nameMetadata ->
         lookupMeta nameMetadata (Metadata item) = Some (argName i)).
Proof.
  intros Hp. destruct (toDataItems_ok values 0 payload Hp) as [Hl Hk].
  split; [exact Hl|].
  intros i item Hi. destruct (Hk i item Hi) as (v & Hv & He & Hm). exists v.
  rewrite Hm. cbn. rewrite String.eqb_refl.
  refine (conj Hv (conj He (conj eq_refl _))).
  intros Hne. destruct (String.eqb encodingMetadata nameMetadata) eqn:E.
  - apply String.eqb_eq in E; contradiction.
  - rewrite String.eqb_refl. reflexivity.
Qed.

Lemma toDataItems_error_index values : forall i m,
  toDataItems i values = inl (ErrUnableToEncodeGob m) -> i <= m.
Proof.
  induction values as [|v vs IH]; intros i m Hp; cbn in Hp; [discriminate|].
  destruct (gobEncode v); [|injection Hp as ->; lia].
  destruct (toDataItems (S i) vs) as [[m']|] eqn:E; [|discriminate].
  injection Hp as ->. apply IH in E. lia.
Qed.

Lemma toDataItems_error values : forall i j,
  toDataItems i values = inl (ErrUnableToEncodeGob (i + j)) <->
  (exists v, nth_error values j = Some v /\ gobEncode v = None) /\
  (forall k v, k < j -> nth_error values k = Some v -> gobEncode v <> None).
Proof.
  induction values as [|v vs IH]; intros i j; cbn [toDataItems].
  - split; [discriminate|]. intros [(v & Hv & _) _]. destruct j; discriminate.
  - destruct (gobEncode v) as [b|] eqn:Eb.
    + destruct j as [|j].
      * split.
        -- destruct (toDataItems (S i) vs) as [[m]|] eqn:E; [|discriminate].
           intros Hp; injection Hp as ->. apply toDataItems_error_index in E. lia.
        -- intros [(v' & Hv & He) _]. cbn in Hv. injection Hv as <-. congruence.
      * replace (i + S j) with (S i + j) by lia.
        assert (Hs : (match toDataItems (S i) vs with
                      | inl e => inl e
                      | inr items => inr (Build_PayloadItem
                          [(encodingMetadata, encodingMetadataGob); (nameMetadata, argName i)] b
                          :: items)
                      end = inl (ErrUnableToEncodeGob (S i + j)) :> (ToDataError + Payload))
                     <-> toDataItems (S i) vs = inl (ErrUnableToEncodeGob (S i + j)))
          by (destruct (toDataItems (S i) vs); split; congruence).
        rewrite Hs, IH. cbn [nth_error]. split.
        -- intros [Hx Hk]. split; [exact Hx|].
           intros [|k] v' Hkj Hv'; [cbn in Hv'; injection Hv' as <-; congruence|].
           apply (Hk k); [lia|exact Hv'].
        -- intros [Hx Hk]. split; [exact Hx|].
           intros k v' Hkj Hv'. apply (Hk (S k)); [lia|exact Hv'].
    + split.
      * intros Hp. injection Hp as Hj. assert (j = 0) by lia. subst j.
        split; [exists v; auto|]. intros k v' Hk; lia.
      * intros [_ Hk]. destruct j as [|j]; [rewrite Nat.add_0_r; reflexivity|].
        exfalso. apply (Hk 0 v); [lia|reflexivity|exact Eb].
Qed.

(** [ToData] fails exactly when gob cannot encode some value, and the
    error reports the index of the first such value. *)
Theorem ToData_error values i :
  ToData values = inl (ErrUnableToEncodeGob i) <->
  (exists v, nth_error values i = Some v /\ gobEncode v = None) /\
  (forall k v, k < i -> nth_error values k = Some v -> gobEncode v <> None).
Proof. exact (toDataItems_error values 0 i). Qed.

Lemma setNth_app {A} (l1 : list A) x y l2 :
  setNth (l1 ++ x :: l2) (List.length l1) y = l1 ++ y :: l2.
Proof. induction l1 as [|h t IH]; cbn; [reflexivity|]. rewrite IH. reflexivity. Qed.



Lemma fromDataItems_roundtrip values : forall done targets extra payload,
  toDataItems (List.length done) values = inr payload ->
  Forall2 decodesBack values targets ->
  fromDataItems (List.length done) payload (done ++ targets ++ extra) =
    (done ++ values ++ extra, FromDataOk).
Proof.
  induction values as [|v vs IH]; intros done targets extra payload Hp Hf; cbn in Hp.
  - injection Hp as <-. inversion Hf; subst. reflexivity.
  - destruct (gobEncode v) as [b|] eqn:Eb; [|discriminate].
    destruct (toDataItems (S (List.length done)) vs) as [e|items] eqn:Er; [discriminate|].
    injection Hp as <-. inversion Hf as [|v' t vs' ts Hd Hf']; subst.
    cbn [fromDataItems Metadata Data lookupMeta]. rewrite !String.eqb_refl.
    rewrite nth_error_app2, Nat.sub_diag by lia. cbn [nth_error app].
    rewrite (Hd b Eb).
    rewrite setNth_app.
    replace (done ++ v :: ts ++ extra) with ((done ++ [v]) ++ ts ++ extra)
      by (rewrite <- app_assoc; reflexivity).
    replace (S (List.length done)) with (List.length (done ++ [v]))
      in * by (rewrite length_app; cbn; lia).
    rewrite (IH (done ++ [v]) ts extra items Er Hf').
    rewrite <- app_assoc. reflexivity.
Qed.

(** Round trip: decoding what [ToData] produced, into pointers into which
    gob decodes back each value it encoded, gives back every value, in
    order, and succeeds; pointers beyond the payload's items are left as
    they were. *)
Theorem FromData_roundtrip values targets extra payload :
  ToData values = inr payload ->
  Forall2 decodesBack values targets ->
  FromData payload (targets ++ extra) = (values ++ extra, FromDataOk).
Proof. intros Hp Hf. exact (fromDataItems_roundtrip values [] targets extra payload Hp Hf). Qed.







End Props.

Lemma ToData_items_witness :
  exists payload,
    ToData [1; 2] = inr payload /\
    (List.length payload = List.length [1; 2] /\
     forall i item, nth_error payload i = Some item ->
       exists v, nth_error [1; 2] i = Some v /\ gobEncode v = Some (Data item) /\
         lookupMeta encodingMetadata (Metadata item) = Some encodingMetadataGob /\
         (encodingMetadata <> nameMetadata ->
            lookupMeta nameMetadata (Metadata item) = Some (argName i))).
Proof.
  eexists; split; [vm_compute; reflexivity|].
  apply ToData_items. vm_compute; reflexivity.
Defined.

Lemma FromData_roundtrip_witness :
  exists payload,
    ToData [1; 2] = inr payload /\
    Forall2 decodesBack [1; 2] [0; 0] /\
    FromData payload ([0; 0] ++ [7]) = ([1; 2] ++ [7], FromDataOk).
Proof.
  assert (Hf : Forall2 decodesBack [1; 2] [0; 0]).
  { repeat constructor; intros b Hb; cbn in Hb; injection Hb as <-; reflexivity. }
  eexists; split; [vm_compute; reflexivity|]. split; [exact Hf|].
  apply FromData_roundtrip; [vm_compute; reflexivity | exact Hf].
Defined.


End TestDataConverterProps.
